(** * bitpeer: collector, extractor and price engine

    A shallow embedding of the three core subsystems of the [bitpeer]
    package and the properties its specification states about them:

    - [bitpeer.metrics.best_price]   (module [BestPrice])
    - [bitpeer.collector.bybit_p2p]  (module [Collector])
    - [bitpeer.parser.bybit_p2p]     (module [Parser])

    Python [float] is IEEE-754 binary64 and is modelled by Rocq's primitive
    floats; Python [int] by [Z]; [str] by [string]; [Optional[T]] by
    [option T]; [set[str]] by [gset string]; [dict[str, str]] by
    [gmap string string] where order is irrelevant, and by an association
    list where the code iterates in insertion order. *)

From Stdlib Require Import ZArith Floats Ascii String DecimalString.
From stdpp Require Import base option list gmap strings.

Set Warnings "-inexact-float,-register-all".

Local Open Scope Z_scope.

(** ** The order on binary64 values

    Python compares floats with the IEEE-754 predicates: every comparison
    with a NaN is false, and the two zeros are equal.  The lemmas below
    read [PrimFloat.ltb] and [PrimFloat.leb] on numbers that are not NaN
    as a lexicographic order on a triple of integers (class and sign,
    exponent, mantissa), from which the usual order facts follow. *)

Module FloatOrder.

Definition rank (x : spec_float) : Z * Z * Z :=
  match x with
  | S754_zero _ => (0, 0, 0)
  | S754_infinity s => (if s then -2 else 2, 0, 0)
  | S754_nan => (0, 0, 0)
  | S754_finite s m e => if s then (-1, - e, - Zpos m) else (1, e, Zpos m)
  end.

Definition lex_lt (a b : Z * Z * Z) : Prop :=
  let '(a1, a2, a3) := a in
  let '(b1, b2, b3) := b in
  a1 < b1 \/ (a1 = b1 /\ (a2 < b2 \/ (a2 = b2 /\ a3 < b3))).

Definition lex_le (a b : Z * Z * Z) : Prop :=
  let '(a1, a2, a3) := a in
  let '(b1, b2, b3) := b in
  a1 < b1 \/ (a1 = b1 /\ (a2 < b2 \/ (a2 = b2 /\ a3 <= b3))).

Definition fkey (x : float) : Z * Z * Z := rank (Prim2SF x).

(** [math.isnan] *)
Definition not_nan (x : float) : Prop := PrimFloat.is_nan x = false.

Ltac cmp_cases :=
  repeat match goal with
  | |- context [Z.compare ?a ?b] => destruct (Z.compare_spec a b)
  | |- context [Pos.compare_cont Eq ?a ?b] =>
      change (Pos.compare_cont Eq a b) with (Pos.compare a b);
      destruct (Pos.compare_spec a b)
  end.

Lemma SFltb_rank (x y : spec_float) :
  x <> S754_nan -> y <> S754_nan ->
  SFltb x y = true <-> lex_lt (rank x) (rank y).
Proof.
  intros Hx Hy.
  destruct x as [sx|sx| |sx mx ex], y as [sy|sy| |sy my ey];
    try congruence; unfold SFltb; cbn;
    repeat match goal with s : bool |- _ => destruct s end; cbn;
    cmp_cases; cbn; split; intros; try discriminate; try reflexivity; lia.
Qed.

Lemma SFleb_rank (x y : spec_float) :
  x <> S754_nan -> y <> S754_nan ->
  SFleb x y = true <-> lex_le (rank x) (rank y).
Proof.
  intros Hx Hy.
  destruct x as [sx|sx| |sx mx ex], y as [sy|sy| |sy my ey];
    try congruence; unfold SFleb; cbn;
    repeat match goal with s : bool |- _ => destruct s end; cbn;
    cmp_cases; cbn; split; intros; try discriminate; try reflexivity; lia.
Qed.

Lemma SFcompare_refl (x : spec_float) :
  x <> S754_nan -> SFcompare x x = Some Eq.
Proof.
  destruct x as [s|s| |s m e]; try congruence; intros _; cbn;
    destruct s; cbn; try reflexivity;
    rewrite Z.compare_refl;
    change (Pos.compare_cont Eq m m) with (Pos.compare m m);
    rewrite Pos.compare_refl; reflexivity.
Qed.

Lemma not_nan_spec (x : float) : not_nan x <-> Prim2SF x <> S754_nan.
Proof.
  unfold not_nan, PrimFloat.is_nan. rewrite FloatAxioms.eqb_spec. unfold SFeqb. split.
  - intros H E. rewrite E in H. discriminate.
  - intros H. rewrite (SFcompare_refl _ H). reflexivity.
Qed.

Lemma ltb_lex (x y : float) :
  not_nan x -> not_nan y ->
  PrimFloat.ltb x y = true <-> lex_lt (fkey x) (fkey y).
Proof.
  intros Hx%not_nan_spec Hy%not_nan_spec. rewrite FloatAxioms.ltb_spec.
  apply SFltb_rank; assumption.
Qed.

Lemma leb_lex (x y : float) :
  not_nan x -> not_nan y ->
  PrimFloat.leb x y = true <-> lex_le (fkey x) (fkey y).
Proof.
  intros Hx%not_nan_spec Hy%not_nan_spec. rewrite FloatAxioms.leb_spec.
  apply SFleb_rank; assumption.
Qed.

Ltac lex_solve :=
  unfold lex_lt, lex_le in *;
  repeat match goal with
  | |- context [fkey ?x] => destruct (fkey x) as [[? ?] ?]
  | H : context [fkey ?x] |- _ => destruct (fkey x) as [[? ?] ?]
  end; lia.

(** On numbers, [not (x < y)] is [y <= x]. *)
Lemma ltb_false_leb (x y : float) :
  not_nan x -> not_nan y ->
  PrimFloat.ltb x y = false -> PrimFloat.leb y x = true.
Proof.
  intros Hx Hy H. apply leb_lex; try assumption.
  assert (~ lex_lt (fkey x) (fkey y)) as N.
  { intros L. apply ltb_lex in L; try assumption. congruence. }
  lex_solve.
Qed.

Lemma ltb_trans (x y z : float) :
  not_nan x -> not_nan y -> not_nan z ->
  PrimFloat.ltb x y = true -> PrimFloat.ltb y z = true ->
  PrimFloat.ltb x z = true.
Proof.
  intros Hx Hy Hz H1 H2.
  apply ltb_lex in H1; try assumption. apply ltb_lex in H2; try assumption.
  apply ltb_lex; try assumption. lex_solve.
Qed.

Lemma ltb_leb_trans (x y z : float) :
  not_nan x -> not_nan y -> not_nan z ->
  PrimFloat.ltb x y = true -> PrimFloat.leb y z = true ->
  PrimFloat.ltb x z = true.
Proof.
  intros Hx Hy Hz H1 H2.
  apply ltb_lex in H1; try assumption. apply leb_lex in H2; try assumption.
  apply ltb_lex; try assumption. lex_solve.
Qed.

Lemma leb_ltb_trans (x y z : float) :
  not_nan x -> not_nan y -> not_nan z ->
  PrimFloat.leb x y = true -> PrimFloat.ltb y z = true ->
  PrimFloat.ltb x z = true.
Proof.
  intros Hx Hy Hz H1 H2.
  apply leb_lex in H1; try assumption. apply ltb_lex in H2; try assumption.
  apply ltb_lex; try assumption. lex_solve.
Qed.

Lemma leb_refl (x : float) : not_nan x -> PrimFloat.leb x x = true.
Proof. intros Hx. apply leb_lex; try assumption. lex_solve. Qed.

(** Every comparison with a NaN is false. *)
Lemma ltb_true_not_nan (x y : float) :
  PrimFloat.ltb x y = true -> not_nan x /\ not_nan y.
Proof.
  rewrite FloatAxioms.ltb_spec, !not_nan_spec. unfold SFltb.
  destruct (Prim2SF x), (Prim2SF y); cbn; intros E;
    try discriminate E; split; discriminate.
Qed.

(** [<] is a strict order on all floats, NaN included. *)
Lemma ltb_irrefl (x : float) : PrimFloat.ltb x x = false.
Proof.
  destruct (PrimFloat.ltb x x) eqn:E; [|reflexivity].
  destruct (ltb_true_not_nan _ _ E) as [Hx _].
  apply ltb_lex in E; try assumption. lex_solve.
Qed.

Lemma ltb_trans_any (x y z : float) :
  PrimFloat.ltb x y = true -> PrimFloat.ltb y z = true ->
  PrimFloat.ltb x z = true.
Proof.
  intros H1 H2.
  destruct (ltb_true_not_nan _ _ H1) as [Hx Hy].
  destruct (ltb_true_not_nan _ _ H2) as [_ Hz].
  exact (ltb_trans x y z Hx Hy Hz H1 H2).
Qed.

Lemma leb_true_not_nan (x y : float) :
  PrimFloat.leb x y = true -> not_nan x /\ not_nan y.
Proof.
  rewrite FloatAxioms.leb_spec, !not_nan_spec. unfold SFleb.
  destruct (Prim2SF x), (Prim2SF y); cbn; intros E;
    try discriminate E; split; discriminate.
Qed.


(** [==] on numbers: the same rank (the two zeros are equal). *)
Definition lex_eq (a b : Z * Z * Z) : Prop :=
  let '(a1, a2, a3) := a in
  let '(b1, b2, b3) := b in
  a1 = b1 /\ a2 = b2 /\ a3 = b3.

Lemma SFeqb_rank (x y : spec_float) :
  x <> S754_nan -> y <> S754_nan ->
  SFeqb x y = true <-> lex_eq (rank x) (rank y).
Proof.
  intros Hx Hy.
  destruct x as [sx|sx| |sx mx ex], y as [sy|sy| |sy my ey];
    try congruence; unfold SFeqb; cbn;
    repeat match goal with s : bool |- _ => destruct s end; cbn;
    cmp_cases; cbn; split; intros; try discriminate; try reflexivity; lia.
Qed.

Lemma leb_antisym (x y : float) :
  PrimFloat.leb x y = true -> PrimFloat.leb y x = true ->
  PrimFloat.eqb x y = true.
Proof.
  intros H1 H2.
  destruct (leb_true_not_nan _ _ H1) as [Hx Hy].
  apply leb_lex in H1; try assumption. apply leb_lex in H2; try assumption.
  rewrite FloatAxioms.eqb_spec.
  apply SFeqb_rank; try (apply not_nan_spec; assumption).
  fold (fkey x) (fkey y). unfold lex_eq. lex_solve.
Qed.

(** A product with a NaN factor is NaN. *)
Lemma mul_not_nan (x y : float) :
  not_nan (PrimFloat.mul x y) -> not_nan x /\ not_nan y.
Proof.
  rewrite !not_nan_spec, FloatAxioms.mul_spec. unfold SF64mul, SFmul.
  destruct (Prim2SF x), (Prim2SF y); intros E; split; congruence.
Qed.

End FloatOrder.

(** ** [bitpeer.models] *)

Inductive Side := BUY | SELL.

#[global] Instance Side_eq_dec : EqDecision Side.
Proof. solve_decision. Defined.

(** [Offer]: the canonical offer record.  [ts_utc] is kept as an opaque
    timestamp (seconds); nothing in the core inspects it. *)
Record Offer := mkOffer {
  ts_utc : Z;
  asset : string;
  fiat : string;
  side : Side;
  price_fiat_per_usdt : float;
  min_fiat : float;
  max_fiat : float;
  payment_methods : list string;
  is_merchant : option bool;
  rating : option float;
  advertiser_key : option string;
  market : option string;
  page : option Z
}.

(** ** [bitpeer.metrics.best_price] *)

Module BestPrice.

Record Constraints := mkConstraints {
  payment_methods_any : option (gset string);
  merchant_only : bool;
  min_rating : float
}.

(** The second field is [price_fiat_per_usdt] in the source; it is renamed
    here because [Offer] already has a field of that name. *)
Record BestSingleResult := mkBestSingleResult {
  offer : Offer;
  result_price : float
}.

Inductive Direction := buy_usdt | sell_usdt.

(** [if c.payment_methods_any:] -- a set is truthy when it is not [None]
    and not empty. *)
Definition truthy_set (s : option (gset string)) : bool :=
  match s with
  | Some ms => negb (bool_decide (ms = ∅))
  | None => false
  end.

(** [any(m in accepted for m in methods)] *)
Definition any_in (accepted : gset string) (methods : list string) : bool :=
  existsb (fun m => bool_decide (m ∈ accepted)) methods.

Definition _passes_constraints (o : Offer) (c : Constraints) : bool :=
  if merchant_only c && negb (bool_decide (is_merchant o = Some true))
  then false
  else if match rating o with
          | Some r => PrimFloat.ltb r (min_rating c)
          | None => false
          end
  then false
  else if truthy_set (payment_methods_any c)
  then match payment_methods_any c with
       | Some ms => if negb (any_in ms (payment_methods o)) then false else true
       | None => true
       end
  else true.

Definition _executable_for_fiat_amount (o : Offer) (amount_fiat : float) : bool :=
  PrimFloat.leb (min_fiat o) amount_fiat && PrimFloat.leb amount_fiat (max_fiat o).

Definition _executable_for_usdt_amount (o : Offer) (amount_usdt : float) : bool :=
  let amount_fiat := PrimFloat.mul amount_usdt (price_fiat_per_usdt o) in
  PrimFloat.leb (min_fiat o) amount_fiat && PrimFloat.leb amount_fiat (max_fiat o).

(** The body of the [for offer in offers] loop: [true] when the offer is
    appended to [candidates], [false] when one of the [continue]s fires. *)
Definition is_candidate (direction : Direction) (amount : float)
    (constraints : Constraints) (o : Offer) : bool :=
  if negb (_passes_constraints o constraints) then false
  else match direction with
       | buy_usdt =>
           if negb (bool_decide (side o = SELL)) then false
           else if negb (_executable_for_fiat_amount o amount) then false
           else true
       | sell_usdt =>
           if negb (bool_decide (side o = BUY)) then false
           else if negb (_executable_for_usdt_amount o amount) then false
           else true
       end.

(** Python's [min(iterable, key=...)]: the running best is replaced only
    when the new key is strictly smaller ([key(item) < key(best)]). *)
Fixpoint min_from (best : Offer) (rest : list Offer) : Offer :=
  match rest with
  | [] => best
  | o :: tl =>
      if PrimFloat.ltb (price_fiat_per_usdt o) (price_fiat_per_usdt best)
      then min_from o tl
      else min_from best tl
  end.

(** Python's [max(iterable, key=...)]: replaced only when the new key is
    strictly greater ([key(item) > key(best)]). *)
Fixpoint max_from (best : Offer) (rest : list Offer) : Offer :=
  match rest with
  | [] => best
  | o :: tl =>
      if PrimFloat.ltb (price_fiat_per_usdt best) (price_fiat_per_usdt o)
      then max_from o tl
      else max_from best tl
  end.

Definition best_single (offers : list Offer) (direction : Direction)
    (amount : float) (constraints : Constraints) : option BestSingleResult :=
  let candidates := filter (fun o => is_candidate direction amount constraints o = true) offers in
  match candidates with
  | [] => None
  | first :: rest =>
      let best := match direction with
                  | buy_usdt => min_from first rest
                  | sell_usdt => max_from first rest
                  end in
      Some (mkBestSingleResult best (price_fiat_per_usdt best))
  end.

(** *** What the loop keeps

    [considered] spells out, per direction, the three tests an offer has to
    pass to be appended to [candidates]. *)

Definition considered (direction : Direction) (amount : float)
    (constraints : Constraints) (o : Offer) : Prop :=
  _passes_constraints o constraints = true /\
  match direction with
  | buy_usdt =>
      side o = SELL /\
      PrimFloat.leb (min_fiat o) amount = true /\
      PrimFloat.leb amount (max_fiat o) = true
  | sell_usdt =>
      side o = BUY /\
      PrimFloat.leb (min_fiat o) (PrimFloat.mul amount (price_fiat_per_usdt o)) = true /\
      PrimFloat.leb (PrimFloat.mul amount (price_fiat_per_usdt o)) (max_fiat o) = true
  end.

(** [strictly_better d a b]: [a] ranks strictly before [b] for direction
    [d] (cheaper when acquiring, dearer when disposing); [at_least_as_good]
    is the non-strict version. *)
Definition strictly_better (d : Direction) (a b : Offer) : Prop :=
  match d with
  | buy_usdt => PrimFloat.ltb (price_fiat_per_usdt a) (price_fiat_per_usdt b) = true
  | sell_usdt => PrimFloat.ltb (price_fiat_per_usdt b) (price_fiat_per_usdt a) = true
  end.

Definition at_least_as_good (d : Direction) (a b : Offer) : Prop :=
  match d with
  | buy_usdt => PrimFloat.leb (price_fiat_per_usdt a) (price_fiat_per_usdt b) = true
  | sell_usdt => PrimFloat.leb (price_fiat_per_usdt b) (price_fiat_per_usdt a) = true
  end.

Definition price_is_number (o : Offer) : Prop :=
  FloatOrder.not_nan (price_fiat_per_usdt o).

Lemma is_candidate_considered d amount c o :
  is_candidate d amount c o = true <-> considered d amount c o.
Proof.
  unfold is_candidate, considered, _executable_for_fiat_amount,
    _executable_for_usdt_amount.
  destruct (_passes_constraints o c); cbn; [|intuition discriminate].
  destruct d; case_bool_decide as Hs; cbn;
    try (split; [discriminate | intros (_ & ? & _); contradiction]);
    rewrite negb_if; rewrite andb_if;
    destruct (PrimFloat.leb (min_fiat o) _), (PrimFloat.leb _ (max_fiat o));
    intuition discriminate.
Qed.

(** Splitting a filtered list splits the list it was filtered from. *)
Lemma filter_split {A} (P : A -> Prop) `{!forall x, Decision (P x)}
    (l : list A) (l1 l2 : list A) (x : A) :
  filter P l = l1 ++ x :: l2 ->
  exists k1 k2, l = k1 ++ x :: k2 /\ filter P k1 = l1 /\ filter P k2 = l2 /\ P x.
Proof.
  revert l1. induction l as [|y l IH]; intros l1 E.
  - destruct l1; discriminate.
  - rewrite filter_cons in E. destruct (decide (P y)) as [Py|Py].
    + destruct l1 as [|z l1]; cbn in E.
      * injection E as -> E. exists [], l. rewrite filter_nil. auto.
      * injection E as -> E. destruct (IH _ E) as (k1 & k2 & -> & F1 & F2 & Px).
        exists (z :: k1), k2. rewrite filter_cons_True by assumption.
        rewrite F1. auto.
    + destruct (IH _ E) as (k1 & k2 & -> & F1 & F2 & Px).
      exists (y :: k1), k2. rewrite filter_cons_False by assumption. auto.
Qed.

(** [min] over numbers: everything before the result is strictly dearer,
    everything after it is at least as dear. *)
Lemma min_from_split (best : Offer) (rest : list Offer) :
  Forall price_is_number (best :: rest) ->
  exists l1 l2,
    best :: rest = l1 ++ min_from best rest :: l2 /\
    Forall (strictly_better buy_usdt (min_from best rest)) l1 /\
    Forall (at_least_as_good buy_usdt (min_from best rest)) l2.
Proof.
  revert best. induction rest as [|o tl IH]; intros best Hn; cbn.
  - exists [], []. auto.
  - pose proof (Forall_inv Hn) as Nb.
    pose proof (Forall_inv (Forall_inv_tail Hn)) as No.
    pose proof (Forall_inv_tail (Forall_inv_tail Hn)) as Ntl.
    destruct (PrimFloat.ltb (price_fiat_per_usdt o) (price_fiat_per_usdt best)) eqn:L.
    + destruct (IH o (Forall_cons_2 _ _ _ No Ntl)) as (l1 & l2 & E & F1 & F2).
      set (r := min_from o tl) in *.
      assert (price_is_number r) as Nr.
      { eapply Forall_forall; [exact (Forall_cons_2 _ _ _ No Ntl)|].
        rewrite E. apply elem_of_app. right. left. }
      exists (best :: l1), l2. rewrite E. split; [reflexivity|]. split; [|assumption].
      constructor; [|assumption]. cbn.
      destruct l1 as [|z l1]; cbn in E.
      * injection E as E _. rewrite <- E. exact L.
      * injection E as E _. subst z. apply Forall_inv in F1. cbn in F1.
        eapply FloatOrder.ltb_trans; [| | | exact F1 | exact L]; assumption.
    + destruct (IH best (Forall_cons_2 _ _ _ Nb Ntl)) as (l1 & l2 & E & F1 & F2).
      set (r := min_from best tl) in *.
      assert (price_is_number r) as Nr.
      { eapply Forall_forall; [exact (Forall_cons_2 _ _ _ Nb Ntl)|].
        rewrite E. apply elem_of_app. right. left. }
      apply FloatOrder.ltb_false_leb in L; try assumption.
      destruct l1 as [|z l1]; cbn in E.
      * injection E as E1 E2. exists [], (o :: l2). cbn.
        rewrite <- E1 in F2 |- *. rewrite E2.
        split; [reflexivity|]. split; [constructor|].
        constructor; [exact L | exact F2].
      * injection E as E1 E2. subst z. exists (best :: o :: l1), l2.
        rewrite E2. split; [reflexivity|]. split; [|assumption].
        constructor; [exact (Forall_inv F1)|].
        constructor; [|exact (Forall_inv_tail F1)]. cbn.
        pose proof (Forall_inv F1) as Lr. cbn in Lr.
        eapply FloatOrder.ltb_leb_trans; [| | | exact Lr | exact L]; assumption.
Qed.

(** [max] over numbers: everything before the result is strictly cheaper,
    everything after it is at most as dear. *)
Lemma max_from_split (best : Offer) (rest : list Offer) :
  Forall price_is_number (best :: rest) ->
  exists l1 l2,
    best :: rest = l1 ++ max_from best rest :: l2 /\
    Forall (strictly_better sell_usdt (max_from best rest)) l1 /\
    Forall (at_least_as_good sell_usdt (max_from best rest)) l2.
Proof.
  revert best. induction rest as [|o tl IH]; intros best Hn; cbn.
  - exists [], []. auto.
  - pose proof (Forall_inv Hn) as Nb.
    pose proof (Forall_inv (Forall_inv_tail Hn)) as No.
    pose proof (Forall_inv_tail (Forall_inv_tail Hn)) as Ntl.
    destruct (PrimFloat.ltb (price_fiat_per_usdt best) (price_fiat_per_usdt o)) eqn:L.
    + destruct (IH o (Forall_cons_2 _ _ _ No Ntl)) as (l1 & l2 & E & F1 & F2).
      set (r := max_from o tl) in *.
      assert (price_is_number r) as Nr.
      { eapply Forall_forall; [exact (Forall_cons_2 _ _ _ No Ntl)|].
        rewrite E. apply elem_of_app. right. left. }
      exists (best :: l1), l2. rewrite E. split; [reflexivity|]. split; [|assumption].
      constructor; [|assumption]. cbn.
      destruct l1 as [|z l1]; cbn in E.
      * injection E as E _. rewrite <- E. exact L.
      * injection E as E _. subst z. apply Forall_inv in F1. cbn in F1.
        eapply FloatOrder.ltb_trans; [| | | exact L | exact F1]; assumption.
    + destruct (IH best (Forall_cons_2 _ _ _ Nb Ntl)) as (l1 & l2 & E & F1 & F2).
      set (r := max_from best tl) in *.
      assert (price_is_number r) as Nr.
      { eapply Forall_forall; [exact (Forall_cons_2 _ _ _ Nb Ntl)|].
        rewrite E. apply elem_of_app. right. left. }
      apply FloatOrder.ltb_false_leb in L; try assumption.
      destruct l1 as [|z l1]; cbn in E.
      * injection E as E1 E2. exists [], (o :: l2). cbn.
        rewrite <- E1 in F2 |- *. rewrite E2.
        split; [reflexivity|]. split; [constructor|].
        constructor; [exact L | exact F2].
      * injection E as E1 E2. subst z. exists (best :: o :: l1), l2.
        rewrite E2. split; [reflexivity|]. split; [|assumption].
        constructor; [exact (Forall_inv F1)|].
        constructor; [|exact (Forall_inv_tail F1)]. cbn.
        pose proof (Forall_inv F1) as Lr. cbn in Lr.
        eapply FloatOrder.leb_ltb_trans; [| | | exact L | exact Lr]; assumption.
Qed.

(** *** What holds on every input: nothing beats the result

    [min] and [max] are the same loop over a "strictly better" test.  As
    long as that test is a strict order, which [<] on floats is even in
    the presence of NaN, no element is strictly better than the one the
    loop returns. *)

Section Extremum.
Variable better : Offer -> Offer -> bool.
Hypothesis better_irrefl : forall a, better a a = false.
Hypothesis better_trans :
  forall a b c, better a b = true -> better b c = true -> better a c = true.

Fixpoint extremum_from (best : Offer) (rest : list Offer) : Offer :=
  match rest with
  | [] => best
  | o :: tl => if better o best then extremum_from o tl else extremum_from best tl
  end.

Lemma extremum_from_improves (best : Offer) (rest : list Offer) :
  extremum_from best rest = best \/ better (extremum_from best rest) best = true.
Proof.
  revert best. induction rest as [|o tl IH]; intros best; cbn; [now left|].
  destruct (better o best) eqn:B.
  - right. destruct (IH o) as [->|Hb]; [assumption|]. eapply better_trans; eauto.
  - apply IH.
Qed.

Lemma extremum_from_unbeaten (best : Offer) (rest : list Offer) (c : Offer) :
  c ∈ best :: rest -> better c (extremum_from best rest) = false.
Proof.
  revert best c. induction rest as [|o tl IH]; intros best c Hc; cbn.
  - apply list_elem_of_singleton in Hc as ->. apply better_irrefl.
  - destruct (better o best) eqn:B.
    + apply elem_of_cons in Hc as [->|Hc]; [|apply IH, Hc].
      destruct (better best (extremum_from o tl)) eqn:E; [|reflexivity].
      rewrite <- (IH o o); [|left]. symmetry. eapply better_trans; eauto.
    + apply elem_of_cons in Hc as [->|Hc]; [apply IH; left|].
      apply elem_of_cons in Hc as [->|Hc]; [|apply IH; now right].
      destruct (better o (extremum_from best tl)) eqn:E; [|reflexivity].
      destruct (extremum_from_improves best tl) as [Eq|Hb].
      * rewrite Eq in E. congruence.
      * rewrite <- B. symmetry. eapply better_trans; eauto.
Qed.

End Extremum.

Lemma min_from_extremum (best : Offer) (rest : list Offer) :
  min_from best rest =
  extremum_from
    (fun o b => PrimFloat.ltb (price_fiat_per_usdt o) (price_fiat_per_usdt b))
    best rest.
Proof.
  revert best. induction rest as [|o tl IH]; intros best; cbn; [reflexivity|].
  rewrite !IH. reflexivity.
Qed.

Lemma max_from_extremum (best : Offer) (rest : list Offer) :
  max_from best rest =
  extremum_from
    (fun o b => PrimFloat.ltb (price_fiat_per_usdt b) (price_fiat_per_usdt o))
    best rest.
Proof.
  revert best. induction rest as [|o tl IH]; intros best; cbn; [reflexivity|].
  rewrite !IH. reflexivity.
Qed.

(** Also when prices are NaN: no offer that survives the filters is
    strictly cheaper (dearer, when disposing) than the one returned. *)
Lemma best_single_unbeaten (offers : list Offer) d amount c r (o : Offer) :
  best_single offers d amount c = Some r ->
  o ∈ offers -> considered d amount c o ->
  ~ strictly_better d o (offer r).
Proof.
  unfold best_single. intros E Ho Hc%is_candidate_considered.
  assert (o ∈ filter (fun o => is_candidate d amount c o = true) offers) as Hin
    by (apply list_elem_of_filter; auto).
  destruct (filter _ offers) as [|first rest]; [discriminate|].
  injection E as <-. cbn. destruct d; cbn; apply not_true_iff_false.
  - rewrite min_from_extremum.
    apply (extremum_from_unbeaten
      (fun o b => PrimFloat.ltb (price_fiat_per_usdt o) (price_fiat_per_usdt b)));
      [intros; apply FloatOrder.ltb_irrefl
      |intros ? ? ?; apply FloatOrder.ltb_trans_any | assumption].
  - rewrite max_from_extremum.
    apply (extremum_from_unbeaten
      (fun o b => PrimFloat.ltb (price_fiat_per_usdt b) (price_fiat_per_usdt o)));
      [intros; apply FloatOrder.ltb_irrefl
      |intros ? ? ? H1 H2; exact (FloatOrder.ltb_trans_any _ _ _ H2 H1)
      | assumption].
Qed.

Lemma candidates_nil (offers : list Offer) d amount c :
  filter (fun o => is_candidate d amount c o = true) offers = [] <->
  Forall (fun o => ~ considered d amount c o) offers.
Proof.
  rewrite Forall_forall. split.
  - intros E o Ho Hc%is_candidate_considered.
    exact (filter_nil_not_elem_of _ _ _ E Hc Ho).
  - intros H. induction offers as [|o tl IH]; [reflexivity|].
    rewrite filter_cons_False.
    + apply IH. intros x Hx. apply H. now right.
    + intros Hc%is_candidate_considered. apply (H o); [left | assumption].
Qed.

(** *** Examples: the three-offer books of the specification *)

Definition sell_offer (price : float) : Offer :=
  mkOffer 0 "USDT" "VND" SELL price 100 1000 [] None None None None None.

Definition buy_offer (price : float) : Offer :=
  mkOffer 0 "USDT" "VND" BUY price 100 100000000 [] None None None None None.

Definition no_constraints : Constraints := mkConstraints None false 0.

Example acquire_picks_cheapest :
  best_single [sell_offer 3.1; sell_offer 2.9; sell_offer 3.0] buy_usdt 500 no_constraints
  = Some (mkBestSingleResult (sell_offer 2.9) 2.9).
Proof. vm_compute. reflexivity. Qed.

Example dispose_picks_dearest :
  best_single [buy_offer 24500; buy_offer 24800; buy_offer 24600] sell_usdt 10 no_constraints
  = Some (mkBestSingleResult (buy_offer 24800) 24800).
Proof. vm_compute. reflexivity. Qed.

Example amount_outside_every_window :
  best_single [sell_offer 3.1; sell_offer 2.9; sell_offer 3.0] buy_usdt 5000 no_constraints
  = None.
Proof. vm_compute. reflexivity. Qed.

(** C1, as stated, fails on a price that is not a number.  Both offers are
    SELL-side, pass the (empty) constraints and are executable for 500;
    [min] keeps the first one because [1.0 < nan] is false, so the
    returned price is not less than or equal to the other candidate's. *)
Lemma best_single_nan_price_first :
  best_single [sell_offer PrimFloat.nan; sell_offer 1] buy_usdt 500 no_constraints
    = Some (mkBestSingleResult (sell_offer PrimFloat.nan) PrimFloat.nan) /\
  is_candidate buy_usdt 500 no_constraints (sell_offer 1) = true /\
  PrimFloat.leb PrimFloat.nan (price_fiat_per_usdt (sell_offer 1)) = false.
Proof. vm_compute. repeat split. Qed.

(** C1 (amended): whenever the prices of the offers that survive the
    filters are numbers (not NaN), [best_single] considers exactly the
    offers that pass the constraint checks, have the side the direction
    asks for (SELL for "buy_usdt", BUY for "sell_usdt") and whose window
    [min_fiat, max_fiat] holds the amount (read as fiat for "buy_usdt",
    multiplied by the offer's own price for "sell_usdt"); it returns None
    exactly when there is no such offer, and otherwise an offer of the list
    that is considered, whose price is minimal ("buy_usdt") or maximal
    ("sell_usdt") among the considered ones, and that comes first among the
    considered offers of equal price: every considered offer before it is
    strictly worse. *)
Theorem best_single_spec (offers : list Offer) (d : Direction)
    (amount : float) (c : Constraints) :
  Forall (fun o => considered d amount c o -> price_is_number o) offers ->
  match best_single offers d amount c with
  | None => Forall (fun o => ~ considered d amount c o) offers
  | Some r =>
      result_price r = price_fiat_per_usdt (offer r) /\
      considered d amount c (offer r) /\
      exists before after,
        offers = before ++ offer r :: after /\
        Forall (fun o => considered d amount c o -> strictly_better d (offer r) o) before /\
        Forall (fun o => considered d amount c o -> at_least_as_good d (offer r) o) after
  end.
Proof.
  intros Hn. unfold best_single.
  destruct (filter _ offers) as [|first rest] eqn:E.
  - apply candidates_nil, E.
  - assert (Forall price_is_number (first :: rest)) as Hnum.
    { rewrite <- E. apply Forall_forall. intros o [Po Ho]%list_elem_of_filter.
      rewrite Forall_forall in Hn. apply (Hn o Ho), is_candidate_considered, Po. }
    assert (forall r l1 l2 (Q1 Q2 : Offer -> Prop),
      first :: rest = l1 ++ r :: l2 -> Forall Q1 l1 -> Forall Q2 l2 ->
      considered d amount c r /\
      exists before after, offers = before ++ r :: after /\
        Forall (fun o => considered d amount c o -> Q1 o) before /\
        Forall (fun o => considered d amount c o -> Q2 o) after) as lift.
    { intros r l1 l2 Q1 Q2 E' F1 F2. rewrite E' in E.
      apply filter_split in E as (k1 & k2 & -> & <- & <- & Px).
      split; [apply is_candidate_considered, Px|].
      exists k1, k2. split; [reflexivity|].
      rewrite Forall_forall in F1, F2.
      split; apply Forall_forall; intros o Ho Hc%is_candidate_considered;
        [apply F1 | apply F2]; apply list_elem_of_filter; auto. }
    cbn. split; [reflexivity|]. destruct d.
    + destruct (min_from_split first rest Hnum) as (l1 & l2 & E' & F1 & F2).
      exact (lift _ _ _ _ _ E' F1 F2).
    + destruct (max_from_split first rest Hnum) as (l1 & l2 & E' & F1 & F2).
      exact (lift _ _ _ _ _ E' F1 F2).
Qed.

Lemma best_single_spec_witness :
  match best_single [sell_offer 3.1; sell_offer 2.9; sell_offer 3.0; sell_offer 2.9]
          buy_usdt 500 no_constraints with
  | None => False
  | Some r =>
      result_price r = 2.9%float /\
      exists before after,
        [sell_offer 3.1; sell_offer 2.9; sell_offer 3.0; sell_offer 2.9]
          = before ++ offer r :: after /\
        Forall (fun o => considered buy_usdt 500 no_constraints o ->
                         strictly_better buy_usdt (offer r) o) before /\
        Forall (fun o => considered buy_usdt 500 no_constraints o ->
                         at_least_as_good buy_usdt (offer r) o) after
  end.
Proof.
  pose proof (best_single_spec
    [sell_offer 3.1; sell_offer 2.9; sell_offer 3.0; sell_offer 2.9]
    buy_usdt 500 no_constraints) as H.
  destruct (best_single _ _ _ _) as [r|] eqn:E.
  - destruct H as (Hp & _ & Hs).
    + repeat constructor; intros _; vm_compute; reflexivity.
    + split; [|exact Hs]. vm_compute in E. injection E as <-. reflexivity.
  - vm_compute in E. discriminate E.
Defined.

(** *** The constraint filter *)

Lemma any_in_spec (accepted : gset string) (methods : list string) :
  any_in accepted methods = true <-> exists m, m ∈ methods /\ m ∈ accepted.
Proof.
  unfold any_in. rewrite existsb_exists. split.
  - intros (m & Hm & Hin). exists m. split.
    + apply list_elem_of_In, Hm.
    + apply bool_decide_eq_true in Hin. exact Hin.
  - intros (m & Hm & Hin). exists m. split.
    + apply list_elem_of_In, Hm.
    + apply bool_decide_eq_true. exact Hin.
Qed.

Lemma merchant_rule (o : Offer) (c : Constraints) :
  merchant_only c && negb (bool_decide (is_merchant o = Some true)) = false <->
  (merchant_only c = true -> is_merchant o = Some true).
Proof.
  destruct (merchant_only c); cbn; [case_bool_decide; cbn|];
    split; intros; auto; try discriminate.
  exfalso. auto.
Qed.

Lemma rating_rule (o : Offer) (c : Constraints) :
  match rating o with
  | Some r => PrimFloat.ltb r (min_rating c)
  | None => false
  end = false <->
  (forall r, rating o = Some r -> PrimFloat.ltb r (min_rating c) = false).
Proof.
  destruct (rating o) as [r|]; split; intros H.
  - intros r' [= <-]. exact H.
  - apply H. reflexivity.
  - intros r' [=].
  - reflexivity.
Qed.

Lemma payment_rule (o : Offer) (c : Constraints) :
  (if truthy_set (payment_methods_any c)
   then match payment_methods_any c with
        | Some ms => if negb (any_in ms (payment_methods o)) then false else true
        | None => true
        end
   else true) = true <->
  (forall ms, payment_methods_any c = Some ms -> ms <> ∅ ->
     exists m, m ∈ payment_methods o /\ m ∈ ms).
Proof.
  unfold truthy_set. destruct (payment_methods_any c) as [ms|].
  - case_bool_decide as He; cbn.
    + split; [|reflexivity]. intros _ ms' [= <-] Hne. contradiction.
    + rewrite negb_if. destruct (any_in ms (payment_methods o)) eqn:A.
      * split; [|reflexivity]. intros _ ms' [= <-] _. apply any_in_spec, A.
      * split; [discriminate|]. intros Hp.
        apply (Hp ms eq_refl), any_in_spec in He. congruence.
  - split; [|reflexivity]. intros _ ms' [=].
Qed.

Lemma passes_constraints_iff (o : Offer) (c : Constraints) :
  _passes_constraints o c = true <->
    (merchant_only c = true -> is_merchant o = Some true) /\
    (forall r, rating o = Some r -> PrimFloat.ltb r (min_rating c) = false) /\
    (forall ms, payment_methods_any c = Some ms -> ms <> ∅ ->
       exists m, m ∈ payment_methods o /\ m ∈ ms).
Proof.
  rewrite <- merchant_rule, <- rating_rule, <- payment_rule.
  unfold _passes_constraints.
  destruct (merchant_only c && _); [intuition discriminate|].
  destruct (match rating o with Some _ => _ | None => _ end);
    [intuition discriminate|].
  intuition.
Qed.

Lemma best_single_None (offers : list Offer) d amount c :
  best_single offers d amount c = None <->
  Forall (fun o => ~ considered d amount c o) offers.
Proof.
  rewrite <- candidates_nil. unfold best_single.
  destruct (filter _ offers); split; intros H; try reflexivity; discriminate H.
Qed.

Example payment_sets_disjoint :
  best_single
    [mkOffer 0 "USDT" "VND" SELL 3.1 100 1000 ["Bank"; "Cash"] None None None None None]
    buy_usdt 500 (mkConstraints (Some {[ "Momo" ]}) false 0) = None.
Proof. vm_compute. reflexivity. Qed.

(** C6: the constraint filter keeps an offer exactly when (a) under
    merchant_only its merchant flag is known true, (b) its rating, when
    known, is not below the minimum rating (nothing is asked of an offer
    whose rating is unknown), and (c) it shares a payment method with the
    accepted set whenever that set is given and not empty.  [best_single]
    is a total function: it returns None exactly when no offer survives
    the filters, in particular when no offer passes the constraints. *)
Theorem constraint_filter_spec (offers : list Offer) (d : Direction)
    (amount : float) (c : Constraints) :
  (forall o,
     _passes_constraints o c = true <->
       (merchant_only c = true -> is_merchant o = Some true) /\
       (forall r, rating o = Some r -> PrimFloat.ltb r (min_rating c) = false) /\
       (forall ms, payment_methods_any c = Some ms -> ms <> ∅ ->
          exists m, m ∈ payment_methods o /\ m ∈ ms)) /\
  (best_single offers d amount c = None <->
     Forall (fun o => ~ considered d amount c o) offers) /\
  (Forall (fun o => _passes_constraints o c = false) offers ->
     best_single offers d amount c = None).
Proof.
  split; [intros o; apply passes_constraints_iff|].
  split; [apply best_single_None|].
  intros H. apply best_single_None.
  eapply Forall_impl; [exact H|]. cbn. intros o Hf [Hp _]. congruence.
Qed.

(** The rating rule at work: a known rating below the minimum excludes the
    offer, an unknown rating does not. *)
Lemma constraint_filter_spec_witness :
  _passes_constraints
    (mkOffer 0 "USDT" "VND" SELL 3.1 100 1000 [] None (Some 4.0%float) None None None)
    (mkConstraints None false 4.5) = false /\
  _passes_constraints
    (mkOffer 0 "USDT" "VND" SELL 3.1 100 1000 [] None None None None None)
    (mkConstraints None false 4.5) = true /\
  best_single
    [mkOffer 0 "USDT" "VND" SELL 3.1 100 1000 [] None (Some 4.0%float) None None None]
    buy_usdt 500 (mkConstraints None false 4.5) = None.
Proof.
  split; [vm_compute; reflexivity|].
  split.
  - apply (constraint_filter_spec [] buy_usdt 500 (mkConstraints None false 4.5)).
    cbn. repeat split; intros; discriminate.
  - apply (constraint_filter_spec
      [mkOffer 0 "USDT" "VND" SELL 3.1 100 1000 [] None (Some 4.0%float) None None None]
      buy_usdt 500 (mkConstraints None false 4.5)).
    repeat constructor.
Defined.

(** *** Further properties of the selection *)

Lemma extremum_from_in (better : Offer -> Offer -> bool) (best : Offer)
    (rest : list Offer) :
  extremum_from better best rest ∈ best :: rest.
Proof.
  revert best. induction rest as [|o tl IH]; intros best; cbn; [left|].
  destruct (better o best).
  - right. apply IH.
  - pose proof (IH best) as Hb. apply elem_of_cons in Hb as [Heq|Hin].
    + rewrite Heq. left.
    + right. right. exact Hin.
Qed.

Lemma best_single_in (offers : list Offer) d amount c r :
  best_single offers d amount c = Some r ->
  offer r ∈ offers /\ considered d amount c (offer r) /\
  result_price r = price_fiat_per_usdt (offer r).
Proof.
  unfold best_single. intros E.
  destruct (filter _ offers) as [|first rest] eqn:F; [discriminate|].
  injection E as <-. cbn.
  assert (match d with
          | buy_usdt => min_from first rest
          | sell_usdt => max_from first rest
          end ∈ filter (fun o => is_candidate d amount c o = true) offers) as Hin.
  { rewrite F. destruct d; [rewrite min_from_extremum | rewrite max_from_extremum];
      apply extremum_from_in. }
  apply list_elem_of_filter in Hin as [Hc Hin].
  split; [exact Hin|]. split; [apply is_candidate_considered, Hc | reflexivity].
Qed.

(** X1: The offer returned is always one of the offers given, it passes every
    filter, the price reported is its own, and no offer that passes the
    filters is strictly better; this needs no assumption on the prices. *)
Theorem best_single_sound (offers : list Offer) d amount c r :
  best_single offers d amount c = Some r ->
  offer r ∈ offers /\
  considered d amount c (offer r) /\
  result_price r = price_fiat_per_usdt (offer r) /\
  (forall o, o ∈ offers -> considered d amount c o ->
     ~ strictly_better d o (offer r)).
Proof.
  intros E. destruct (best_single_in _ _ _ _ _ E) as (Hin & Hc & Hp).
  split; [exact Hin|]. split; [exact Hc|]. split; [exact Hp|].
  intros o Ho Hco. exact (best_single_unbeaten _ _ _ _ _ _ E Ho Hco).
Qed.

Lemma best_single_sound_witness :
  sell_offer 2.9 ∈ [sell_offer 3.1; sell_offer PrimFloat.nan; sell_offer 2.9] /\
  considered buy_usdt 500 no_constraints (sell_offer 2.9) /\
  ~ strictly_better buy_usdt (sell_offer 3.1) (sell_offer 2.9).
Proof.
  destruct (best_single_sound
    [sell_offer 3.1; sell_offer PrimFloat.nan; sell_offer 2.9]
    buy_usdt 500 no_constraints (mkBestSingleResult (sell_offer 2.9) 2.9))
    as (Hin & Hc & _ & Hbest).
  - vm_compute. reflexivity.
  - split; [exact Hin|]. split; [exact Hc|].
    apply Hbest; [left|]. apply is_candidate_considered. vm_compute. reflexivity.
Defined.

(** When the prices of the surviving offers are numbers, the result is at
    least as good as every surviving offer. *)
Lemma best_single_optimal (offers : list Offer) d amount c r :
  Forall (fun o => considered d amount c o -> price_is_number o) offers ->
  best_single offers d amount c = Some r ->
  forall o, o ∈ offers -> considered d amount c o ->
    at_least_as_good d (offer r) o.
Proof.
  intros Hn E o Ho Hc.
  destruct (best_single_in _ _ _ _ _ E) as (Hin & Hcr & _).
  pose proof (best_single_unbeaten _ _ _ _ _ _ E Ho Hc) as Hu.
  rewrite Forall_forall in Hn.
  pose proof (Hn _ Ho Hc) as No. pose proof (Hn _ Hin Hcr) as Nr.
  destruct d; cbn in *; apply not_true_iff_false in Hu;
    apply FloatOrder.ltb_false_leb in Hu; assumption.
Qed.



(** When disposing, the amount is multiplied by the offer's price before
    it is compared with the window, so an offer whose price is NaN never
    survives. *)
Lemma considered_sell_number (amount : float) (c : Constraints) (o : Offer) :
  considered sell_usdt amount c o ->
  price_is_number o /\ FloatOrder.not_nan amount.
Proof.
  intros (_ & _ & H1 & _).
  apply FloatOrder.leb_true_not_nan in H1 as [_ Hm].
  apply FloatOrder.mul_not_nan in Hm. tauto.
Qed.

(** X3: For "sell_usdt" no assumption on the prices is needed: the price
    returned is a number, and it is the maximum over the offers that
    survive the filters. *)
Theorem best_single_sell_maximum (offers : list Offer) (amount : float)
    (c : Constraints) r :
  best_single offers sell_usdt amount c = Some r ->
  FloatOrder.not_nan (result_price r) /\
  (forall o, o ∈ offers -> considered sell_usdt amount c o ->
     PrimFloat.leb (price_fiat_per_usdt o) (result_price r) = true).
Proof.
  intros E. destruct (best_single_in _ _ _ _ _ E) as (Hin & Hc & Hp).
  rewrite Hp. split; [apply (considered_sell_number _ _ _ Hc)|].
  intros o Ho Hco.
  apply (best_single_optimal offers sell_usdt amount c r); try assumption.
  apply Forall_forall. intros x _ Hx. apply (considered_sell_number _ _ _ Hx).
Qed.

Lemma best_single_sell_maximum_witness :
  FloatOrder.not_nan 24800 /\
  PrimFloat.leb (price_fiat_per_usdt (buy_offer 24500)) 24800 = true.
Proof.
  destruct (best_single_sell_maximum
    [buy_offer 24500; buy_offer PrimFloat.nan; buy_offer 24800]
    10 no_constraints (mkBestSingleResult (buy_offer 24800) 24800))
    as (Hnum & Hmax).
  - vm_compute. reflexivity.
  - split; [exact Hnum|].
    apply Hmax; [left|]. apply is_candidate_considered. vm_compute. reflexivity.
Defined.

(** X4: The order of the offers does not change the best price: on two
    orderings of the same offers [best_single] returns None for both or
    prices that are equal (the offers returned may differ on a tie). *)
Theorem best_single_permutation (offers1 offers2 : list Offer) d amount c :
  offers1 ≡ₚ offers2 ->
  Forall (fun o => considered d amount c o -> price_is_number o) offers1 ->
  match best_single offers1 d amount c, best_single offers2 d amount c with
  | Some r1, Some r2 => PrimFloat.eqb (result_price r1) (result_price r2) = true
  | None, None => True
  | _, _ => False
  end.
Proof.
  intros Hperm Hn1.
  assert (Forall (fun o => considered d amount c o -> price_is_number o) offers2)
    as Hn2 by (rewrite <- Hperm; exact Hn1).
  destruct (best_single offers1 d amount c) as [r1|] eqn:E1,
           (best_single offers2 d amount c) as [r2|] eqn:E2.
  - destruct (best_single_in _ _ _ _ _ E1) as (Hin1 & Hc1 & ->).
    destruct (best_single_in _ _ _ _ _ E2) as (Hin2 & Hc2 & ->).
    assert (offer r2 ∈ offers1) as Hin21 by (rewrite Hperm; exact Hin2).
    assert (offer r1 ∈ offers2) as Hin12 by (rewrite <- Hperm; exact Hin1).
    pose proof (best_single_optimal _ _ _ _ _ Hn1 E1 _ Hin21 Hc2) as H12.
    pose proof (best_single_optimal _ _ _ _ _ Hn2 E2 _ Hin12 Hc1) as H21.
    destruct d; cbn in H12, H21; apply FloatOrder.leb_antisym; assumption.
  - destruct (best_single_in _ _ _ _ _ E1) as (Hin1 & Hc1 & _).
    apply best_single_None in E2. rewrite Forall_forall in E2.
    apply (E2 (offer r1)); [rewrite <- Hperm|]; assumption.
  - destruct (best_single_in _ _ _ _ _ E2) as (Hin2 & Hc2 & _).
    apply best_single_None in E1. rewrite Forall_forall in E1.
    apply (E1 (offer r2)); [rewrite Hperm|]; assumption.
  - exact I.
Qed.

Lemma best_single_permutation_witness :
  match best_single [sell_offer 3.1; sell_offer 2.9; sell_offer 3.0]
          buy_usdt 500 no_constraints,
        best_single [sell_offer 3.0; sell_offer 2.9; sell_offer 3.1]
          buy_usdt 500 no_constraints with
  | Some r1, Some r2 => PrimFloat.eqb (result_price r1) (result_price r2) = true
  | None, None => True
  | _, _ => False
  end.
Proof.
  apply (best_single_permutation
    [sell_offer 3.1; sell_offer 2.9; sell_offer 3.0]
    [sell_offer 3.0; sell_offer 2.9; sell_offer 3.1] buy_usdt 500 no_constraints).
  - apply (Permutation_rev [sell_offer 3.1; sell_offer 2.9; sell_offer 3.0]).
  - repeat constructor; intros _; vm_compute; reflexivity.
Defined.

(** X5: Relaxing the constraints never worsens the result: when every offer
    kept by [c2] is kept by [c1] and [c2] leaves an offer, [c1] leaves one
    too, at a price at least as good. *)
Theorem best_single_relax (offers : list Offer) d amount c1 c2 r2 :
  (forall o, o ∈ offers ->
     _passes_constraints o c2 = true -> _passes_constraints o c1 = true) ->
  Forall (fun o => considered d amount c1 o -> price_is_number o) offers ->
  best_single offers d amount c2 = Some r2 ->
  exists r1, best_single offers d amount c1 = Some r1 /\
             at_least_as_good d (offer r1) (offer r2).
Proof.
  intros Hsub Hn E2.
  destruct (best_single_in _ _ _ _ _ E2) as (Hin2 & [Hp2 Hd2] & _).
  assert (considered d amount c1 (offer r2)) as Hc1
    by (split; [apply Hsub; assumption | exact Hd2]).
  destruct (best_single offers d amount c1) as [r1|] eqn:E1.
  - exists r1. split; [reflexivity|].
    exact (best_single_optimal _ _ _ _ _ Hn E1 _ Hin2 Hc1).
  - apply best_single_None in E1. rewrite Forall_forall in E1.
    destruct (E1 _ Hin2 Hc1).
Qed.

Lemma best_single_relax_witness :
  exists r1,
    best_single
      [sell_offer 2.9;
       mkOffer 0 "USDT" "VND" SELL 3.0 100 1000 [] (Some true) None None None None]
      buy_usdt 500 no_constraints = Some r1 /\
    at_least_as_good buy_usdt (offer r1)
      (mkOffer 0 "USDT" "VND" SELL 3.0 100 1000 [] (Some true) None None None None).
Proof.
  apply (best_single_relax
    [sell_offer 2.9;
     mkOffer 0 "USDT" "VND" SELL 3.0 100 1000 [] (Some true) None None None None]
    buy_usdt 500 no_constraints (mkConstraints None true 0)
    (mkBestSingleResult
       (mkOffer 0 "USDT" "VND" SELL 3.0 100 1000 [] (Some true) None None None None)
       3.0)).
  - intros o Ho _.
    apply elem_of_cons in Ho as [->|Ho]; [vm_compute; reflexivity|].
    apply list_elem_of_singleton in Ho as ->. vm_compute. reflexivity.
  - repeat constructor; intros _; vm_compute; reflexivity.
  - vm_compute. reflexivity.
Defined.

End BestPrice.

(** ** JSON values, as [json.loads] returns them

    A JSON object becomes a Python [dict], which keeps insertion order and
    has unique keys: it is an association list here, read with [assoc]
    (first match).  Python's [None] is [JNull]. *)

Module Json.

Inductive json :=
| JNull
| JBool (b : bool)
| JInt (z : Z)
| JFloat (f : float)
| JStr (s : string)
| JList (items : list json)
| JDict (entries : list (string * json)).

Fixpoint assoc {A : Type} (k : string) (d : list (string * A)) : option A :=
  match d with
  | [] => None
  | (k', v) :: tl => if String.eqb k k' then Some v else assoc k tl
  end.

(** [k in d] *)
Definition has_key (d : list (string * json)) (k : string) : bool :=
  match assoc k d with Some _ => true | None => false end.

(** [d.get(k)] *)
Definition dict_get (d : list (string * json)) (k : string) : json :=
  match assoc k d with Some v => v | None => JNull end.

(** [bool(v)]: the truth value Python's [or], [if] and [not] test. *)
Definition truthy (v : json) : bool :=
  match v with
  | JNull => false
  | JBool b => b
  | JInt z => negb (z =? 0)
  | JFloat f => negb (PrimFloat.eqb f 0)
  | JStr s => negb (String.eqb s "")
  | JList items => match items with [] => false | _ => true end
  | JDict entries => match entries with [] => false | _ => true end
  end.

(** [a or b] *)
Definition py_or (a b : json) : json := if truthy a then a else b.

Definition is_dict (v : json) : bool :=
  match v with JDict _ => true | _ => false end.

End Json.

Import Json.

(** ** Python numbers: [int(x)], [int / int], [math.ceil]

    [a / b] on integers is the binary64 number nearest to the exact
    quotient (ties to even), whatever the size of [a] and [b], and raises
    OverflowError when that number would not be finite.  A finite float is
    kept as a pair [(m, e)] standing for [m * 2^e]. *)

Module PyNum.

(** [floor (log2 (a / b))] for positive [a] and [b]. *)
Definition quotient_exponent (a b : Z) : Z :=
  let la := Z.log2 a in
  let lb := Z.log2 b in
  if b * 2 ^ la <=? a * 2 ^ lb then la - lb else la - lb - 1.

(** Round to nearest, ties to even: the quotient [q] of a division by [d]
    with remainder [r] is rounded up when the remainder is more than half
    of [d], or exactly half of it and [q] is odd. *)
Definition rounds_up (d r q : Z) : bool :=
  (d <? 2 * r) || ((d =? 2 * r) && Z.odd q).

(** The binary64 number nearest to [a / b], for [0 <= a] and [0 < b]:
    53 significant bits, exponent at least -1074, ties to even. *)
Definition round_quotient (a b : Z) : Z * Z :=
  let e := Z.max (quotient_exponent a b - 52) (-1074) in
  let n := if 0 <=? e then a else a * 2 ^ (- e) in
  let d := if 0 <=? e then b * 2 ^ e else b in
  let q := n / d in
  let r := n mod d in
  let m := if rounds_up d r q then q + 1 else q in
  (m, e).

(** [a / b]; [None] stands for ZeroDivisionError and OverflowError. *)
Definition int_truediv (a b : Z) : option (Z * Z) :=
  if b =? 0 then None
  else
    let '(m, e) := round_quotient (Z.abs a) (Z.abs b) in
    if 2 ^ 1024 <=? m * 2 ^ e then None
    else Some (Z.sgn a * Z.sgn b * m, e).

(** [math.ceil] of the float [m * 2^e]. *)
Definition math_ceil (x : Z * Z) : Z :=
  let '(m, e) := x in
  if 0 <=? e then m * 2 ^ e else - ((- m) / 2 ^ (- e)).

(** [int(f)] on a float truncates toward zero and raises on NaN and on
    the infinities. *)
Definition int_of_float (f : float) : option Z :=
  match Prim2SF f with
  | S754_zero _ => Some 0
  | S754_finite s m e =>
      let magnitude := if 0 <=? e then Zpos m * 2 ^ e else Zpos m / 2 ^ (- e) in
      Some (if s then - magnitude else magnitude)
  | S754_infinity _ | S754_nan => None
  end.

(** The float [m * 2^e] as a primitive float, for [0 <= m < 2^63]. *)
Definition to_float (x : Z * Z) : float :=
  let '(m, e) := x in
  if 0 <=? m then Z.ldexp (PrimFloat.of_uint63 (Uint63.of_Z m)) e
  else PrimFloat.opp (Z.ldexp (PrimFloat.of_uint63 (Uint63.of_Z (- m))) e).

(** Exact ceiling of [a / b] on integers, [0 < b]. *)
Definition ceil_div (a b : Z) : Z := - ((- a) / b).


(** [float(n)] on an integer: the nearest binary64 number, OverflowError
    ([None]) when it is not finite. *)
Definition float_of_int (n : Z) : option float :=
  match binary_normalize prec emax n 0 false with
  | S754_infinity _ | S754_nan => None
  | x => Some (SF2Prim x)
  end.

(** *** The division agrees with the library's IEEE-754 division

    On operands that are themselves binary64 numbers, [int_truediv] is the
    hardware division; on larger ones it is [SFdiv] at unbounded operand
    size. *)

Example truediv_25_10 :
  option_map to_float (int_truediv 25 10) = Some (25 / 10)%float.
Proof. vm_compute. reflexivity. Qed.

Example truediv_1_3 :
  option_map to_float (int_truediv 1 3) = Some (1 / 3)%float.
Proof. vm_compute. reflexivity. Qed.

Example truediv_neg_7_3 :
  option_map to_float (int_truediv (-7) 3) = Some (-7 / 3)%float.
Proof. vm_compute. reflexivity. Qed.

Example truediv_large :
  match int_truediv (10 ^ 300) (3 ^ 500) with
  | Some (m, e) =>
      SFeqb (binary_normalize prec emax m e false)
        (SFdiv prec emax (S754_finite false (10 ^ 300) 0) (S754_finite false (3 ^ 500) 0))
  | None => false
  end = true.
Proof. vm_compute. reflexivity. Qed.

Example truediv_subnormal :
  match int_truediv 3 (2 ^ 1075) with
  | Some (m, e) =>
      SFeqb (binary_normalize prec emax m e false)
        (SFdiv prec emax (S754_finite false 3 0) (S754_finite false (2 ^ 1075) 0))
  | None => false
  end = true.
Proof. vm_compute. reflexivity. Qed.

Example truediv_overflow :
  int_truediv (10 ^ 400) 7 = None /\
  SFdiv prec emax (S754_finite false (10 ^ 400) 0) (S754_finite false 7 0)
    = S754_infinity false.
Proof. vm_compute. split; reflexivity. Qed.

Example ceil_25_10 : option_map math_ceil (int_truediv 25 10) = Some 3.
Proof. vm_compute. reflexivity. Qed.

(** Above [2^53] the rounding of the quotient shows in the ceiling. *)
Example ceil_above_2_53 :
  option_map math_ceil (int_truediv (2 ^ 53 + 1) 1) = Some (2 ^ 53).
Proof. vm_compute. reflexivity. Qed.

(** *** Below [2^53] the ceiling of the rounded quotient is exact *)

Lemma quotient_exponent_lower (a b : Z) :
  0 < a -> 0 < b -> 0 <= quotient_exponent a b ->
  b * 2 ^ quotient_exponent a b <= a.
Proof.
  intros Ha Hb. unfold quotient_exponent.
  destruct (Z.log2_spec a Ha) as [La Ua].
  destruct (Z.log2_spec b Hb) as [Lb Ub].
  pose proof (Z.log2_nonneg a) as Na. pose proof (Z.log2_nonneg b) as Nb.
  set (la := Z.log2 a) in *. set (lb := Z.log2 b) in *.
  destruct (Z.leb_spec (b * 2 ^ la) (a * 2 ^ lb)) as [C|C]; intros Hk.
  - replace la with ((la - lb) + lb) in C by lia.
    rewrite Z.pow_add_r in C by lia.
    assert (0 < 2 ^ lb) by (apply Z.pow_pos_nonneg; lia).
    nia.
  - replace (Z.succ lb) with (lb + 1) in Ub by lia.
    assert (2 ^ la = 2 ^ (lb + 1) * 2 ^ (la - lb - 1)) as E.
    { rewrite <- Z.pow_add_r by lia. f_equal. lia. }
    assert (0 < 2 ^ (la - lb - 1)) by (apply Z.pow_pos_nonneg; lia).
    nia.
Qed.

Lemma quotient_exponent_nonneg (a b : Z) :
  0 < b -> b <= a -> 0 <= quotient_exponent a b.
Proof.
  intros Hb Hab. unfold quotient_exponent.
  pose proof (Z.log2_le_mono b a Hab) as M.
  destruct (Z.leb_spec (b * 2 ^ Z.log2 a) (a * 2 ^ Z.log2 b)) as [C|C]; [lia|].
  assert (Z.log2 b <> Z.log2 a); [|lia].
  intros E. rewrite E in C.
  assert (0 < 2 ^ Z.log2 a) by (apply Z.pow_pos_nonneg; [lia | apply Z.log2_nonneg]).
  nia.
Qed.


Lemma ceil_div_bounds (a b : Z) :
  0 < b -> (ceil_div a b - 1) * b < a <= ceil_div a b * b.
Proof.
  intros Hb. unfold ceil_div.
  pose proof (Z.div_mod (- a) b ltac:(lia)) as E.
  pose proof (Z.mod_pos_bound (- a) b Hb) as B.
  nia.
Qed.

Lemma round_quotient_large (a b e : Z) :
  0 < a <= 2 ^ 53 -> 0 < b -> 0 <= e -> b * 2 ^ e * 2 ^ 52 <= a ->
  (if rounds_up (b * 2 ^ e) (a mod (b * 2 ^ e)) (a / (b * 2 ^ e))
   then a / (b * 2 ^ e) + 1 else a / (b * 2 ^ e)) * 2 ^ e = ceil_div a b.
Proof.
  intros Ha Hb He Hlow.
  assert (0 < 2 ^ e) as Hp by (apply Z.pow_pos_nonneg; lia).
  set (P := 2 ^ e) in *. clearbody P.
  change (2 ^ 53) with 9007199254740992 in *.
  change (2 ^ 52) with 4503599627370496 in *.
  assert (b * P <= 2) as HbP by nia.
  assert (b <= 2) as Hb2 by (clear - HbP Hb Hp; nia).
  assert (P <= 2) as HP2 by (clear - HbP Hb Hp; nia).
  assert (b = 1 \/ b = 2) as Cb by lia.
  assert (P = 1 \/ P = 2) as CP by lia.
  destruct Cb as [-> | ->], CP as [-> | ->]; try lia.
  - rewrite Z.div_1_r, Z.mod_1_r. unfold rounds_up, ceil_div.
    rewrite Z.div_1_r.
    replace (1 * 1 <? 2 * 0) with false by reflexivity.
    replace (1 * 1 =? 2 * 0) with false by reflexivity.
    cbn [orb andb]. lia.
  - assert (a = 9007199254740992) as -> by lia. reflexivity.
  - assert (a = 9007199254740992) as -> by lia. reflexivity.
Qed.

Lemma round_quotient_small (a b T : Z) :
  0 < a -> 0 < b -> 1 <= T ->
  let q := (a * T) / b in
  let r := (a * T) mod b in
  let m := if rounds_up b r q then q + 1 else q in
  0 <= m <= ceil_div a b * T /\
  (a <= 2 ^ 53 -> b * 2 ^ 52 <= a * T -> b < a -> (ceil_div a b - 1) * T < m).
Proof.
  intros Ha Hb HT q r m.
  pose proof (ceil_div_bounds a b Hb) as [Cl Cu].
  set (c := ceil_div a b) in *.
  pose proof (Z.div_mod (a * T) b ltac:(lia)) as E.
  pose proof (Z.mod_pos_bound (a * T) b Hb) as B.
  fold q in E. fold r in E, B.
  assert (0 <= q) as Hq by (apply Z.div_pos; nia).
  assert (q <= c * T) as Hqc by nia.
  assert ((c - 1) * T <= q) as Hql by nia.
  split.
  - subst m. destruct (rounds_up b r q) eqn:R; [|lia].
    split; [lia|].
    assert (q <> c * T); [|lia].
    intros Eq. unfold rounds_up in R.
    assert (r = 0) as Er by nia.
    apply Bool.orb_true_iff in R as [R|R].
    + apply Z.ltb_lt in R. lia.
    + apply Bool.andb_true_iff in R as [R _]. apply Z.eqb_eq in R. lia.
  - intros Ha53 Hnorm Hba.
    change (2 ^ 53) with 9007199254740992 in *.
    change (2 ^ 52) with 4503599627370496 in *.
    subst m. destruct (rounds_up b r q) eqn:R; [lia|].
    assert (q <> (c - 1) * T); [|lia].
    intros Eq. unfold rounds_up in R.
    apply Bool.orb_false_iff in R as [R1 R2].
    apply Z.ltb_ge in R1.
    assert (r = (a - (c - 1) * b) * T) as Er by nia.
    assert (b <= 2 * T) as HbT by nia.
    assert (T <= r) as HTr by nia.
    assert (b = 2 * T /\ r = T) as [Eb ErT] by lia.
    assert (a - (c - 1) * b = 1) as Ea by nia.
    assert (9007199254740992 <= a) by nia.
    assert (a = 9007199254740992) as Ea' by lia.
    rewrite Eb in Ea. lia.
Qed.

Lemma ceil_of_scaled (m c T : Z) :
  0 < T -> (c - 1) * T < m <= c * T -> - ((- m) / T) = c.
Proof.
  intros HT Hm.
  pose proof (Z.div_mod (- m) T ltac:(lia)) as E.
  pose proof (Z.mod_pos_bound (- m) T HT) as B.
  nia.
Qed.

Lemma round_quotient_spec (a b : Z) :
  0 < a <= 2 ^ 53 -> 0 < b ->
  0 <= fst (round_quotient a b) /\
  fst (round_quotient a b) * 2 ^ snd (round_quotient a b) < 2 ^ 1024 /\
  Z.max 1 (math_ceil (round_quotient a b)) = ceil_div a b.
Proof.
  intros Ha Hb. unfold round_quotient.
  pose proof (ceil_div_bounds a b Hb) as [Cl Cu].
  assert (1 <= ceil_div a b) as Hc by nia.
  set (c := ceil_div a b) in *.
  set (k := quotient_exponent a b).
  set (e := Z.max (k - 52) (-1074)).
  cbn [fst snd math_ceil].
  destruct (Z.leb_spec 0 e) as [He|He].
  - assert (e = k - 52) as Ee by lia.
    assert (b * 2 ^ k <= a) as Hlow
      by (apply quotient_exponent_lower; fold k; lia).
    replace k with (e + 52) in Hlow by lia.
    rewrite Z.pow_add_r, Z.mul_assoc in Hlow by lia.
    pose proof (round_quotient_large a b e Ha Hb He Hlow) as V.
    fold c in V. rewrite V.
    assert (0 < 2 ^ e) by (apply Z.pow_pos_nonneg; lia).
    split; [nia|]. split; [|lia].
    apply Z.le_lt_trans with (2 ^ 53); [nia|].
    apply Z.pow_lt_mono_r; lia.
  - assert (0 < 2 ^ (- e)) as HT by (apply Z.pow_pos_nonneg; lia).
    destruct (round_quotient_small a b (2 ^ (- e)) ltac:(lia) Hb ltac:(lia))
      as [[Hm0 Hmc] Hlow].
    fold c in Hmc, Hlow.
    set (m := if rounds_up b _ _ then _ else _) in *.
    split; [exact Hm0|]. split.
    { rewrite (Z.pow_neg_r 2 e) by lia. rewrite Z.mul_0_r.
      apply Z.pow_pos_nonneg; lia. }
    destruct (Z.ltb_spec b a) as [Hba|Hba].
    + assert (0 <= k) as Hk by (apply quotient_exponent_nonneg; lia).
      assert (e = k - 52) as Ee by lia.
      assert (b * 2 ^ k <= a) as Hk2
        by (apply quotient_exponent_lower; fold k; lia).
      assert (2 ^ 52 = 2 ^ k * 2 ^ (- e)) as E52.
      { rewrite <- Z.pow_add_r by lia. f_equal. lia. }
      assert (b * 2 ^ 52 <= a * 2 ^ (- e)) as Hn by (rewrite E52; nia).
      specialize (Hlow ltac:(lia) Hn Hba).
      rewrite (ceil_of_scaled m c (2 ^ (- e))) by lia. lia.
    + assert (c = 1) as Ec by nia.
      rewrite Ec in *.
      assert (- ((- m) / 2 ^ (- e)) <= 1); [|lia].
      pose proof (Z.div_mod (- m) (2 ^ (- e)) ltac:(lia)) as E.
      pose proof (Z.mod_pos_bound (- m) (2 ^ (- e)) HT) as B.
      nia.
Qed.

Lemma round_quotient_zero (b : Z) : 0 < b -> fst (round_quotient 0 b) = 0.
Proof.
  intros Hb. unfold round_quotient. cbn [fst].
  set (e := Z.max (quotient_exponent 0 b - 52) (-1074)).
  assert (forall d, 0 < d -> (if rounds_up d (0 mod d) (0 / d) then 0 / d + 1 else 0 / d) = 0) as Z0.
  { intros d Hd. rewrite Zmod_0_l, Zdiv_0_l. unfold rounds_up.
    destruct (Z.ltb_spec d (2 * 0)); [lia|].
    destruct (Z.eqb_spec d (2 * 0)); [lia|]. reflexivity. }
  destruct (Z.leb_spec 0 e).
  - apply Z0. assert (0 < 2 ^ e) by (apply Z.pow_pos_nonneg; lia). nia.
  - rewrite Z.mul_0_l. apply Z0, Hb.
Qed.

Lemma int_truediv_ceil (a b : Z) :
  - 2 ^ 53 <= a <= 2 ^ 53 -> 0 < b ->
  exists x, int_truediv a b = Some x /\
            Z.max 1 (math_ceil x) = Z.max 1 (ceil_div a b).
Proof.
  intros Ha Hb. unfold int_truediv.
  destruct (Z.eqb_spec b 0) as [?|_]; [lia|].
  rewrite (Z.abs_eq b), (Z.sgn_pos b), Z.mul_1_r by lia.
  destruct (Z.lt_trichotomy a 0) as [Hneg|[->|Hpos]].
  - destruct (round_quotient_spec (Z.abs a) b ltac:(lia) Hb) as (Hm & Hov & Hceil).
    destruct (round_quotient (Z.abs a) b) as [m e]. cbn [fst snd] in *.
    destruct (Z.leb_spec (2 ^ 1024) (m * 2 ^ e)); [lia|].
    eexists. split; [reflexivity|].
    rewrite (Z.sgn_neg a) by lia.
    pose proof (ceil_div_bounds a b Hb) as [Cl Cu].
    assert (ceil_div a b <= 0) by nia.
    assert (math_ceil (-1 * m, e) <= 0); [|lia].
    cbn [math_ceil]. destruct (Z.leb_spec 0 e).
    + assert (0 < 2 ^ e) by (apply Z.pow_pos_nonneg; lia). nia.
    + assert (0 < 2 ^ (- e)) as HT by (apply Z.pow_pos_nonneg; lia).
      replace (- (-1 * m)) with m by lia.
      assert (0 <= m / 2 ^ (- e)) by (apply Z.div_pos; lia). lia.
  - pose proof (round_quotient_zero b Hb) as Hz.
    change (Z.abs 0) with 0. change (Z.sgn 0) with 0.
    destruct (round_quotient 0 b) as [m e]. cbn [fst] in Hz. subst m.
    rewrite Z.mul_0_l.
    destruct (Z.leb_spec (2 ^ 1024) 0) as [Hbad|_].
    { assert (0 < 2 ^ 1024) by (apply Z.pow_pos_nonneg; lia). lia. }
    eexists. split; [reflexivity|].
    rewrite Z.mul_0_l. unfold ceil_div. change (- 0) with 0.
    rewrite Zdiv_0_l. cbn [math_ceil]. change (- 0) with 0.
    destruct (0 <=? e); [rewrite Z.mul_0_l|rewrite Zdiv_0_l]; reflexivity.
  - destruct (round_quotient_spec a b ltac:(lia) Hb) as (Hm & Hov & Hceil).
    rewrite (Z.abs_eq a) by lia.
    destruct (round_quotient a b) as [m e]. cbn [fst snd] in *.
    destruct (Z.leb_spec (2 ^ 1024) (m * 2 ^ e)); [lia|].
    eexists. split; [reflexivity|].
    rewrite (Z.sgn_pos a), Z.mul_1_l by lia.
    pose proof (ceil_div_bounds a b Hb) as [Cl Cu]. 
    rewrite Hceil. assert (1 <= ceil_div a b) by nia. lia.
Qed.

(** *** The division overflows only on astronomically large operands *)

Lemma round_quotient_bound (a b : Z) :
  0 <= a -> 0 < b ->
  fst (round_quotient a b) * 2 ^ snd (round_quotient a b) <= 2 * a.
Proof.
  intros Ha Hb. unfold round_quotient. cbn [fst snd].
  set (k := quotient_exponent a b).
  set (e := Z.max (k - 52) (-1074)).
  destruct (Z.leb_spec 0 e) as [He|He].
  2:{ rewrite (Z.pow_neg_r 2 e) by lia. lia. }
  assert (0 < 2 ^ e) as Hp by (apply Z.pow_pos_nonneg; lia).
  set (d := b * 2 ^ e).
  assert (0 < d) as Hd by (unfold d; nia).
  pose proof (Z.div_mod a d ltac:(lia)) as E.
  pose proof (Z.mod_pos_bound a d Hd) as B.
  assert (0 <= a / d) as Hq by (apply Z.div_pos; lia).
  destruct (rounds_up d (a mod d) (a / d)) eqn:R; [|unfold d in *; nia].
  assert (0 < a) as Hapos.
  { destruct (Z.eq_dec a 0) as [->|]; [|lia].
    rewrite Zmod_0_l, Zdiv_0_l in R. unfold rounds_up in R.
    destruct (Z.ltb_spec d (2 * 0)); [lia|].
    destruct (Z.eqb_spec d (2 * 0)); [lia|]. discriminate. }
  assert (b * 2 ^ k <= a) as Hlow
    by (apply quotient_exponent_lower; fold k; lia).
  assert (2 ^ k = 2 ^ e * 2 ^ 52) as Ek.
  { rewrite <- Z.pow_add_r by lia. f_equal. lia. }
  assert (d <= a) as Hda by (unfold d; change (2 ^ 52) with 4503599627370496 in Ek; nia).
  assert (1 <= a / d) as Hq1 by (apply Z.div_le_lower_bound; lia).
  unfold d in *. nia.
Qed.

Lemma int_truediv_overflow (a b : Z) :
  0 < b -> int_truediv a b = None -> 2 ^ 1023 <= Z.abs a.
Proof.
  intros Hb. unfold int_truediv.
  destruct (Z.eqb_spec b 0) as [?|_]; [lia|].
  rewrite (Z.abs_eq b) by lia.
  pose proof (round_quotient_bound (Z.abs a) b (Z.abs_nonneg a) Hb) as Hbound.
  destruct (round_quotient (Z.abs a) b) as [m e]. cbn [fst snd] in Hbound.
  destruct (Z.leb_spec (2 ^ 1024) (m * 2 ^ e)) as [Hov|_]; [|discriminate].
  intros _. replace (2 ^ 1024) with (2 * 2 ^ 1023) in Hov; [lia|].
  rewrite <- (Z.pow_succ_r 2 1023) by lia. reflexivity.
Qed.

End PyNum.

(** ** The Python runtime and the network

    The library functions the package calls are taken as an interface:
    every theorem below holds for whatever functions implement it.  The
    HTTP client is a transition on an abstract world. *)

Record FormatCtx := mkFormatCtx {
  ctx_fiat : string;
  ctx_side : string;
  ctx_endpoint_side : string;
  ctx_page : Z
}.

Class Builtins := {
  (** [json.loads(text)]; [None] when it raises *)
  json_loads : string -> option json;
  (** [int(s)] on a string; [None] on ValueError *)
  int_of_str : string -> option Z;
  (** [float(s)] on a string; [None] on ValueError *)
  float_of_str : string -> option float;
  (** [s.lower()] *)
  str_lower : string -> string;
  (** [s.strip()] *)
  str_strip : string -> string;
  (** [s.format] applied to the context; [None] when it raises *)
  str_format : string -> FormatCtx -> option string;
  (** [str(v)] *)
  str_of : json -> string
}.

(** [int(v)]; [None] when it raises (TypeError, ValueError, OverflowError).
    [bool] is a subclass of [int]. *)
Definition py_int `{Builtins} (v : json) : option Z :=
  match v with
  | JInt z => Some z
  | JBool b => Some (if b then 1 else 0)
  | JFloat f => PyNum.int_of_float f
  | JStr s => int_of_str s
  | JNull | JList _ | JDict _ => None
  end.

Inductive Method := GET | POST.

Module MarketConfig.
Record t := mk {
  name : string;
  fiat : string;
  side : Side;
  endpoint_side : string
}.
End MarketConfig.

Record BybitP2PEndpoint := mkEndpoint {
  url : string;
  method : Method;
  timeout_seconds : Z;
  headers : gmap string string;
  body_template : list (string * json)
}.

Record CollectorConfig := mkCollectorConfig {
  interval_seconds : Z;
  max_pages : Z;
  min_offers_after_filter : Z
}.

Record AppConfig := mkAppConfig {
  collector : CollectorConfig;
  bybit_p2p_endpoint : BybitP2PEndpoint;
  markets : list MarketConfig.t
}.

Module RawFetchRecord.
Record t := mk {
  ts_utc : Z;
  market : string;
  fiat : string;
  side : Side;
  page : Z;
  request_url : string;
  request_method : Method;
  request_headers : gmap string string;
  request_body : list (string * json);
  http_status : option Z;
  response_text : option string;
  error : option string
}.
End RawFetchRecord.

(** What one call of [client.request] comes to: a response, whatever its
    status, or an exception, kept as its [repr]. *)
Inductive Reply :=
| Completed (status_code : Z) (text : string)
| Raised (repr : string).

Record HttpRequest := mkHttpRequest {
  req_method : Method;
  req_url : string;
  req_headers : gmap string string;
  req_body : list (string * json)
}.

Class Network := {
  World : Type;
  (** [await client.request(...)] *)
  send : World -> HttpRequest -> World * Reply;
  (** [datetime.now(UTC)] *)
  now : World -> Z
}.

(** What a Python call comes to: a value, or an exception that escapes. *)
Inductive outcome (A : Type) :=
| Returns (a : A)
| Raises (exception : string).
Arguments Returns {A} a.
Arguments Raises {A} exception.

(** ** A small runtime for the examples

    The interface instantiated on the inputs the examples use: ASCII
    letters, decimal integer literals, the placeholders of the body
    template, and a table of response bodies with what [json.loads]
    returns on them.  The server answers every request with status 200
    and the body the table assigns to the requested page. *)

Module Sample.

Definition ascii_lower (c : ascii) : ascii :=
  let n := N_of_ascii c in
  if (65 <=? n)%N && (n <=? 90)%N then ascii_of_N (n + 32) else c.

Fixpoint lower (s : string) : string :=
  match s with
  | EmptyString => EmptyString
  | String c tl => String (ascii_lower c) (lower tl)
  end.

Fixpoint digits (s : string) (acc : Z) : option Z :=
  match s with
  | EmptyString => Some acc
  | String c tl =>
      let n := Z.of_N (N_of_ascii c) in
      if (48 <=? n) && (n <=? 57) then digits tl (10 * acc + (n - 48)) else None
  end.

Definition int_literal (s : string) : option Z :=
  match s with
  | EmptyString => None
  | String "-" (String c tl) => option_map Z.opp (digits (String c tl) 0)
  | String "-" EmptyString => None
  | _ => digits s 0
  end.

Definition float_literal (s : string) : option float :=
  match int_literal s with
  | Some n => PyNum.float_of_int n
  | None => None
  end.

Fixpoint lstrip (s : string) : string :=
  match s with
  | String " " tl => lstrip tl
  | _ => s
  end.

Definition strip (s : string) : string :=
  String.rev (lstrip (String.rev (lstrip s))).

Definition show_int (n : Z) : string := NilEmpty.string_of_int (Z.to_int n).

Definition format (s : string) (ctx : FormatCtx) : option string :=
  if String.eqb s "{page}" then Some (show_int (ctx_page ctx))
  else if String.eqb s "{fiat}" then Some (ctx_fiat ctx)
  else if String.eqb s "{side}" then Some (ctx_side ctx)
  else if String.eqb s "{endpoint_side}" then Some (ctx_endpoint_side ctx)
  else Some s.

Definition show (v : json) : string :=
  match v with
  | JStr s => s
  | JInt n => show_int n
  | JBool true => "True"
  | JBool false => "False"
  | JNull => "None"
  | _ => "?"
  end.

(** Response bodies.  [q s] is [s] between double quotes. *)
Definition q (s : string) : string :=
  String (ascii_of_nat 34) (s +:+ String (ascii_of_nat 34) EmptyString).

Definition count_body (n : Z) : string :=
  "{" +:+ q "result" +:+ ": {" +:+ q "count" +:+ ": " +:+ show_int n +:+ "}}".

Definition count_payload (n : Z) : json :=
  JDict [("result", JDict [("count", JInt n)])].

Definition known_counts : list Z :=
  [25; 1000; 90071992547409921; 10 ^ 400].

Definition bodies : list (string * json) :=
  map (fun n => (count_body n, count_payload n)) known_counts
  ++ [("{" +:+ q "result" +:+ ": []}", JDict [("result", JList [])]);
      ("{" +:+ q "result" +:+ ": {}}", JDict [("result", JDict [])]);
      ("[]", JList [])].

(** A page of two offers under result.items; the second has no minimum. *)
Definition offer_a : list (string * json) :=
  [("price", JStr "24,500"); ("minAmount", JStr "100000");
   ("maxAmount", JStr "2000000");
   ("payments", JList [JStr "Bank"; JStr "Momo"; JStr "Bank"]);
   ("nickName", JStr "alice")].

Definition offer_b : list (string * json) :=
  [("price", JStr "24600"); ("maxAmount", JStr "500000")].

Definition offers_payload : json :=
  JDict [("result", JDict [("count", JInt 2);
                           ("items", JList [JDict offer_a; JDict offer_b])])].

Definition offers_body : string :=
  "{" +:+ q "result" +:+ ": {" +:+ q "count" +:+ ": 2, " +:+ q "items" +:+ ": [{"
  +:+ q "price" +:+ ": " +:+ q "24,500" +:+ ", "
  +:+ q "minAmount" +:+ ": " +:+ q "100000" +:+ ", "
  +:+ q "maxAmount" +:+ ": " +:+ q "2000000" +:+ ", "
  +:+ q "payments" +:+ ": [" +:+ q "Bank" +:+ ", " +:+ q "Momo" +:+ ", "
  +:+ q "Bank" +:+ "], "
  +:+ q "nickName" +:+ ": " +:+ q "alice" +:+ "}, {"
  +:+ q "price" +:+ ": " +:+ q "24600" +:+ ", "
  +:+ q "maxAmount" +:+ ": " +:+ q "500000" +:+ "}]}}".

Definition loads (text : string) : option json :=
  assoc text ((offers_body, offers_payload) :: bodies).

#[export] Instance builtins : Builtins := {|
  json_loads := loads;
  int_of_str := int_literal;
  float_of_str := float_literal;
  str_lower := lower;
  str_strip := strip;
  str_format := format;
  str_of := show
|}.

(** The world is the number of requests sent so far. *)
Definition serve (body : string) (w : nat) (rq : HttpRequest) : nat * Reply :=
  (S w, Completed 200 body).

Definition server (body : string) : Network := {|
  World := nat;
  send := serve body;
  now := fun w => Z.of_nat w
|}.

(** A server that is down: every request raises. *)
Definition down : Network := {|
  World := nat;
  send := fun w _ => (S w, Raised "ConnectError('All connection attempts failed')");
  now := fun w => Z.of_nat w
|}.

Example lower_mixed : lower "X-Api-Key" = "x-api-key".
Proof. reflexivity. Qed.

Example count_body_25 : loads (count_body 25) = Some (count_payload 25).
Proof. vm_compute. reflexivity. Qed.

End Sample.

(** ** [bitpeer.collector.bybit_p2p] *)

Module Collector.

Section Collector.
Context `{Builtins} `{Network}.

Definition _SENSITIVE_HEADERS : gset string :=
  {[ "authorization"; "cookie"; "x-api-key"; "x-csrf-token"; "guid";
     "risktoken"; "traceparent" ]}.

Definition _sanitize_headers (hs : gmap string string) : gmap string string :=
  filter (fun kv => str_lower kv.1 ∉ _SENSITIVE_HEADERS) hs.

Fixpoint _substitute_placeholders (value : json) (ctx : FormatCtx) : json :=
  match value with
  | JStr s =>
      match str_format s ctx with
      | Some s' => JStr s'
      | None => value
      end
  | JList items => JList (map (fun v => _substitute_placeholders v ctx) items)
  | JDict entries =>
      JDict (map (fun '(k, v) => (k, _substitute_placeholders v ctx)) entries)
  | _ => value
  end.

Definition side_str (s : Side) : string :=
  match s with BUY => "BUY" | SELL => "SELL" end.

Definition _build_body (template : list (string * json)) (fiat : string)
    (side : Side) (endpoint_side : string) (page : Z) : list (string * json) :=
  let ctx := mkFormatCtx fiat (side_str side) endpoint_side page in
  map (fun '(k, v) => (k, _substitute_placeholders v ctx)) template.

(** [@retry(stop=stop_after_attempt(3), reraise=True)]: a call that raises
    is repeated while attempts are left; the last exception is re-raised. *)
Fixpoint with_retry (retries : nat) (w : World) (rq : HttpRequest) : World * Reply :=
  let '(w', reply) := send w rq in
  match reply, retries with
  | Raised _, S k => with_retry k w' rq
  | _, _ => (w', reply)
  end.

Definition _request (w : World) (rq : HttpRequest) : World * Reply :=
  with_retry 2 w rq.

Definition fetch_market_page (w : World) (cfg : AppConfig)
    (market : MarketConfig.t) (page : Z) : World * RawFetchRecord.t :=
  let endpoint := bybit_p2p_endpoint cfg in
  let request_headers := headers endpoint in
  let request_body :=
    _build_body (body_template endpoint) (MarketConfig.fiat market)
      (MarketConfig.side market) (MarketConfig.endpoint_side market) page in
  let ts := now w in
  let '(w', reply) :=
    _request w (mkHttpRequest (method endpoint) (url endpoint)
                  request_headers request_body) in
  let '(text, status, err) :=
    match reply with
    | Completed status_code text => (Some text, Some status_code, None)
    | Raised repr => (None, None, Some repr)
    end in
  (w', RawFetchRecord.mk ts (MarketConfig.name market) (MarketConfig.fiat market)
         (MarketConfig.side market) page (url endpoint) (method endpoint)
         (_sanitize_headers request_headers) request_body status text err).

Definition _derive_total_pages (record : RawFetchRecord.t) : outcome Z :=
  match RawFetchRecord.response_text record with
  | None => Returns 1
  | Some text =>
      if String.eqb text "" then Returns 1
      else
        match json_loads text with
        | None => Returns 1
        | Some payload =>
            let result :=
              match payload with
              | JDict entries => dict_get entries "result"
              | _ => JNull
              end in
            match result with
            | JDict res =>
                let count_raw := dict_get res "count" in
                match py_int count_raw with
                | None => Returns 1
                | Some total_count =>
                    let size_raw :=
                      match assoc "size" (RawFetchRecord.request_body record) with
                      | Some v => v
                      | None => JInt 10
                      end in
                    let page_size :=
                      match py_int size_raw with
                      | Some n => Z.max n 1
                      | None => 10
                      end in
                    match PyNum.int_truediv total_count page_size with
                    | None => Raises "OverflowError"
                    | Some x => Returns (Z.max 1 (PyNum.math_ceil x))
                    end
                end
            | _ => Returns 1
            end
        end
  end.

(** [store.append(rec)]: the store is the sequence of records written. *)
Definition _log_and_store (store : list RawFetchRecord.t) (rec : RawFetchRecord.t)
  : list RawFetchRecord.t := store ++ [rec].

(** The request [fetch_market_page] sends for a page (with the headers as
    configured: only the recorded copy is sanitized). *)
Definition request_for (cfg : AppConfig) (market : MarketConfig.t) (page : Z)
  : HttpRequest :=
  let endpoint := bybit_p2p_endpoint cfg in
  mkHttpRequest (method endpoint) (url endpoint) (headers endpoint)
    (_build_body (body_template endpoint) (MarketConfig.fiat market)
       (MarketConfig.side market) (MarketConfig.endpoint_side market) page).

(** The record [fetch_market_page] returns, from the timestamp it took
    before the request and what [_request] came to. *)
Definition fetch_record (cfg : AppConfig) (market : MarketConfig.t) (page : Z)
    (ts : Z) (reply : Reply) : RawFetchRecord.t :=
  let endpoint := bybit_p2p_endpoint cfg in
  let '(text, status, err) :=
    match reply with
    | Completed status_code text => (Some text, Some status_code, None)
    | Raised repr => (None, None, Some repr)
    end in
  RawFetchRecord.mk ts (MarketConfig.name market) (MarketConfig.fiat market)
    (MarketConfig.side market) page (url endpoint) (method endpoint)
    (_sanitize_headers (headers endpoint))
    (req_body (request_for cfg market page)) status text err.

(** A task made by
    [asyncio.create_task(fetch_market_page(client, cfg, market, page))].
    The event loop runs one task at a time, from one suspension to the
    next.  A task that has not started has no timestamp yet; once started
    it waits in [_request], with the number of attempts that may follow
    the next one. *)
Record Task := mkTask {
  task_page : Z;
  task_ts : option Z;
  task_retries : nat
}.

Definition create_task (page : Z) : Task := mkTask page None 2.

(** What a turn of a task comes to: it is suspended again, or it is done
    and its record is the result. *)
Inductive Turn :=
| Suspended (t : Task)
| Done (rec : RawFetchRecord.t).

(** One turn of a task.  The first turn runs [fetch_market_page] up to the
    call of [_request]: it reads the clock.  Every later turn is one
    attempt of [_request]: a reply ends the task, an exception ends it
    when no retry is left and otherwise leaves it waiting for the next
    attempt. *)
Definition task_turn (cfg : AppConfig) (market : MarketConfig.t) (t : Task)
    (w : World) : World * Turn :=
  match task_ts t with
  | None => (w, Suspended (mkTask (task_page t) (Some (now w)) (task_retries t)))
  | Some ts =>
      let '(w', reply) := send w (request_for cfg market (task_page t)) in
      match reply, task_retries t with
      | Raised _, S k => (w', Suspended (mkTask (task_page t) (Some ts) k))
      | _, _ => (w', Done (fetch_record cfg market (task_page t) ts reply))
      end
  end.

(** [for task in asyncio.as_completed(tasks): rec = await task;
    _log_and_store(store, rec)]: the tasks run interleaved and the record
    of each is stored when the task is done, so the records are stored in
    the order in which the tasks complete.  Which task runs next is the
    event loop's choice; [sched] lists the choices, each the position of
    the task among those still pending (taken modulo their number, and 0
    once the list is used up).  Every order in which the loop can run the
    tasks is the order of some [sched]; the loop itself starts all the
    tasks before the first reply arrives, which is one of them.  A task
    takes at most four turns, so [fuel] = four turns per task completes
    them all. *)
Fixpoint run_tasks (fuel : nat) (sched : list nat) (cfg : AppConfig)
    (market : MarketConfig.t) (tasks : list Task) (w : World)
    (store : list RawFetchRecord.t) : World * list RawFetchRecord.t :=
  match fuel, tasks with
  | S fuel', _ :: _ =>
      let i := Nat.modulo (hd 0%nat sched) (length tasks) in
      match drop i tasks with
      | t :: after =>
          let before := take i tasks in
          match task_turn cfg market t w with
          | (w', Suspended t') =>
              run_tasks fuel' (tl sched) cfg market (before ++ t' :: after) w' store
          | (w', Done rec) =>
              run_tasks fuel' (tl sched) cfg market (before ++ after) w'
                (_log_and_store store rec)
          end
      | [] => (w, store)
      end
  | _, _ => (w, store)
  end.

Definition safety_cap : Z := 200.

(** The body of [for market in cfg.markets], under the choices [sched] of
    the event loop.  The third component is the exception that escaped, if
    any; the world and the store are those at that point. *)
Definition collect_market (sched : list nat) (cfg : AppConfig)
    (market : MarketConfig.t) (w : World) (store : list RawFetchRecord.t)
  : World * list RawFetchRecord.t * option string :=
  let '(w1, first) := fetch_market_page w cfg market 1 in
  let store1 := _log_and_store store first in
  match _derive_total_pages first with
  | Raises e => (w1, store1, Some e)
  | Returns total_pages =>
      let pages_to_fetch :=
        if 0 <? max_pages (collector cfg)
        then Z.min (Z.min total_pages (max_pages (collector cfg))) safety_cap
        else Z.min total_pages safety_cap in
      if pages_to_fetch <=? 1 then (w1, store1, None)
      else
        let tasks := map create_task (seqZ 2 (pages_to_fetch + 1 - 2)) in
        let '(w2, store2) :=
          run_tasks (4 * length tasks) sched cfg market tasks w1 store1 in
        (w2, store2, None)
  end.

(** [scheds] holds the choices of the event loop market by market (none
    left counts as the empty list). *)
Fixpoint collect_once_from (scheds : list (list nat)) (cfg : AppConfig)
    (ms : list MarketConfig.t) (w : World) (store : list RawFetchRecord.t)
  : World * list RawFetchRecord.t * option string :=
  match ms with
  | [] => (w, store, None)
  | market :: rest =>
      match collect_market (hd [] scheds) cfg market w store with
      | (w', store', Some e) => (w', store', Some e)
      | (w', store', None) => collect_once_from (tl scheds) cfg rest w' store'
      end
  end.

Definition collect_once (scheds : list (list nat)) (cfg : AppConfig) (w : World)
    (store : list RawFetchRecord.t) :=
  collect_once_from scheds cfg (markets cfg) w store.

(** *** Sanitized headers *)

Lemma sanitize_lookup (hs : gmap string string) (k v : string) :
  _sanitize_headers hs !! k = Some v <->
  hs !! k = Some v /\ str_lower k ∉ _SENSITIVE_HEADERS.
Proof. unfold _sanitize_headers. apply map_lookup_filter_Some. Qed.

(** C8: no key of the sanitized headers lowers to a sensitive name,
    whatever its casing in the configuration; a header whose lowered name
    is not sensitive is passed through with its value; nothing is added;
    and these are the headers [fetch_market_page] records. *)
Theorem sanitize_headers_spec (hs : gmap string string) :
  (forall k, k ∈ dom (_sanitize_headers hs) -> str_lower k ∉ _SENSITIVE_HEADERS) /\
  (forall k v, hs !! k = Some v -> str_lower k ∉ _SENSITIVE_HEADERS ->
               _sanitize_headers hs !! k = Some v) /\
  (forall k v, _sanitize_headers hs !! k = Some v -> hs !! k = Some v) /\
  (forall w cfg market page,
     headers (bybit_p2p_endpoint cfg) = hs ->
     RawFetchRecord.request_headers (fetch_market_page w cfg market page).2
       = _sanitize_headers hs).
Proof.
  repeat split.
  - intros k [v Hv]%elem_of_dom. apply sanitize_lookup in Hv. tauto.
  - intros k v Hk Hs. apply sanitize_lookup. tauto.
  - intros k v Hv. apply sanitize_lookup in Hv. tauto.
  - intros w cfg market page <-. unfold fetch_market_page.
    destruct (_request _ _) as [w' [status text|repr]]; reflexivity.
Qed.

(** *** Fetch records *)

Lemma fetch_market_page_fields w cfg market page :
  let rec := (fetch_market_page w cfg market page).2 in
  RawFetchRecord.page rec = page /\
  RawFetchRecord.market rec = MarketConfig.name market /\
  RawFetchRecord.ts_utc rec = now w /\
  RawFetchRecord.request_body rec = req_body (request_for cfg market page).
Proof.
  unfold fetch_market_page, request_for.
  destruct (_request _ _) as [w' [status text|repr]]; cbn; auto.
Qed.

(** A call is retried only after an exception, and at most twice: the
    reply is that of one of the first three calls. *)
Lemma with_retry_reply (n : nat) (w : World) (rq : HttpRequest) :
  exists k, (k <= n)%nat /\
    with_retry n w rq = send (Nat.iter k (fun w0 => (send w0 rq).1) w) rq.
Proof.
  revert w. induction n as [|n IH]; intros w.
  - exists 0%nat. cbn. destruct (send w rq) as [w' [st t|e]]; auto.
  - cbn [with_retry]. destruct (send w rq) as [w' [st t|e]] eqn:E.
    + exists 0%nat. cbn. rewrite E. split; [lia|reflexivity].
    + destruct (IH w') as (k & Hk & H1).
      exists (S k). split; [lia|].
      rewrite Nat.iter_succ_r, E. exact H1.
Qed.

(** C9: every record [fetch_market_page] produces carries exactly one of
    a response and an error.  When the request completed, the record has
    the response body and the HTTP status and no error; when it raised
    (after the retries), the record has the error description and neither
    body nor status. *)
Theorem fetch_record_exactly_one w cfg market page :
  let rec := (fetch_market_page w cfg market page).2 in
  match (_request w (request_for cfg market page)).2 with
  | Completed status_code text =>
      RawFetchRecord.response_text rec = Some text /\
      RawFetchRecord.http_status rec = Some status_code /\
      RawFetchRecord.error rec = None
  | Raised repr =>
      RawFetchRecord.response_text rec = None /\
      RawFetchRecord.http_status rec = None /\
      RawFetchRecord.error rec = Some repr
  end /\
  (is_Some (RawFetchRecord.response_text rec) <-> RawFetchRecord.error rec = None) /\
  (is_Some (RawFetchRecord.http_status rec) <-> RawFetchRecord.error rec = None).
Proof.
  unfold fetch_market_page, request_for. cbn zeta.
  destruct (_request _ _) as [w' [status text|repr]]; cbn.
  - repeat split; auto; intros; eauto.
  - repeat split; auto; try (intros [x Hx]; discriminate); intros; discriminate.
Qed.

(** *** Pages fetched per market *)

Lemma derive_total_pages_ge_1 (record : RawFetchRecord.t) (n : Z) :
  _derive_total_pages record = Returns n -> 1 <= n.
Proof.
  unfold _derive_total_pages. intros E.
  repeat match type of E with
  | context [match ?x with _ => _ end] => destruct x
  | context [if ?x then _ else _] => destruct x
  end; try discriminate; injection E as <-; lia.
Qed.

(** The awaited call and a task build the same record. *)
Lemma fetch_market_page_record w cfg market page :
  fetch_market_page w cfg market page =
    ((_request w (request_for cfg market page)).1,
     fetch_record cfg market page (now w)
       (_request w (request_for cfg market page)).2).
Proof.
  unfold fetch_market_page, fetch_record, request_for.
  destruct (_request _ _) as [w' [status text|repr]]; reflexivity.
Qed.

Lemma fetch_record_fields cfg market page ts reply :
  RawFetchRecord.page (fetch_record cfg market page ts reply) = page /\
  RawFetchRecord.market (fetch_record cfg market page ts reply)
    = MarketConfig.name market.
Proof. destruct reply; split; reflexivity. Qed.

Lemma run_tasks_unfold fuel sched cfg market (tasks : list Task) w
    (store : list RawFetchRecord.t) :
  tasks <> [] ->
  run_tasks (S fuel) sched cfg market tasks w store =
    match drop (Nat.modulo (hd 0%nat sched) (length tasks)) tasks with
    | t :: after =>
        let before := take (Nat.modulo (hd 0%nat sched) (length tasks)) tasks in
        match task_turn cfg market t w with
        | (w', Suspended t') =>
            run_tasks fuel (tl sched) cfg market (before ++ t' :: after) w' store
        | (w', Done rec) =>
            run_tasks fuel (tl sched) cfg market (before ++ after) w'
              (_log_and_store store rec)
        end
    | [] => (w, store)
    end.
Proof. destruct tasks; [congruence | reflexivity]. Qed.

Lemma run_one_task fuel sched cfg market (t : Task) w
    (store : list RawFetchRecord.t) :
  run_tasks (S fuel) sched cfg market [t] w store =
    match task_turn cfg market t w with
    | (w', Suspended t') => run_tasks fuel (tl sched) cfg market [t'] w' store
    | (w', Done rec) => (w', _log_and_store store rec)
    end.
Proof.
  rewrite run_tasks_unfold by discriminate.
  cbn [length]. rewrite Nat.mod_1_r. cbn [drop take app].
  destruct (task_turn cfg market t w) as [w' [t'|rec]]; [reflexivity|].
  destruct fuel; reflexivity.
Qed.

(** A task run alone is the awaited call: [run_tasks] on the one task of
    a page does what [fetch_market_page] does, and stores its record. *)
Lemma run_single_task fuel sched cfg market page w (store : list RawFetchRecord.t) :
  (4 <= fuel)%nat ->
  run_tasks fuel sched cfg market [create_task page] w store =
    ((fetch_market_page w cfg market page).1,
     _log_and_store store (fetch_market_page w cfg market page).2).
Proof.
  intros Hf. destruct fuel as [|[|[|[|fuel]]]]; try lia.
  rewrite fetch_market_page_record. unfold _request. cbn [fst snd].
  rewrite run_one_task. cbn [task_turn create_task task_ts task_page task_retries].
  rewrite run_one_task. cbn [task_turn task_ts task_page task_retries with_retry].
  destruct (send w (request_for cfg market page)) as [w1 [st1 t1|e1]];
    [reflexivity|].
  rewrite run_one_task. cbn [task_turn task_ts task_page task_retries].
  destruct (send w1 (request_for cfg market page)) as [w2 [st2 t2|e2]];
    [reflexivity|].
  rewrite run_one_task. cbn [task_turn task_ts task_page task_retries].
  destruct (send w2 (request_for cfg market page)) as [w3 [st3 t3|e3]];
    reflexivity.
Qed.

(** The turns a task still takes at most. *)
Definition turns_left (t : Task) : nat :=
  match task_ts t with None => 1 | Some _ => 0 end + S (task_retries t).

(** The sum of [f] over the tasks for page [p]. *)
Definition tally (f : Task -> nat) (p : Z) (tasks : list Task) : nat :=
  sum_list_with (fun t => if decide (task_page t = p) then f t else 0%nat) tasks.

(** The number of requests sent for page [p], in a list of the pages for
    which a request was sent. *)
Definition attempts_for (p : Z) (attempts : list Z) : nat :=
  length (filter (fun q => q = p) attempts).

(** The world after the requests [reqs] were sent, in this order. *)
Definition send_all (w : World) (reqs : list HttpRequest) : World :=
  foldl (fun w0 rq => (send w0 rq).1) w reqs.

Lemma tally_app f p (l1 l2 : list Task) :
  tally f p (l1 ++ l2) = (tally f p l1 + tally f p l2)%nat.
Proof. unfold tally. apply sum_list_with_app. Qed.

Lemma tally_cons f p t (l : list Task) :
  tally f p (t :: l) =
    ((if decide (task_page t = p) then f t else 0) + tally f p l)%nat.
Proof. reflexivity. Qed.

Lemma attempts_for_cons p q (l : list Z) :
  attempts_for p (q :: l) =
    ((if decide (q = p) then 1 else 0) + attempts_for p l)%nat.
Proof.
  unfold attempts_for. rewrite filter_cons.
  destruct (decide (q = p)); reflexivity.
Qed.

Lemma attempts_for_elem p (l : list Z) :
  p ∈ l <-> (1 <= attempts_for p l)%nat.
Proof.
  induction l as [|q l IH].
  - cbn. rewrite elem_of_nil. lia.
  - rewrite attempts_for_cons, elem_of_cons. destruct (decide (q = p)); subst.
    + split; [lia | auto].
    + rewrite IH. split; [intros [?|?]; [congruence | lia] | intros; right; lia].
Qed.

Lemma attempts_for_NoDup p (l : list Z) :
  NoDup l -> (attempts_for p l <= 1)%nat.
Proof.
  induction 1 as [|q l Hq _ IH]; [cbn; lia|].
  rewrite attempts_for_cons. destruct (decide (q = p)); [subst|lia].
  assert (~ (1 <= attempts_for p l)%nat) by (rewrite <- attempts_for_elem; exact Hq).
  lia.
Qed.

Lemma send_all_cons w rq reqs :
  send_all w (rq :: reqs) = send_all (send w rq).1 reqs.
Proof. reflexivity. Qed.

(** Whatever the event loop chooses, every task is done when [run_tasks]
    returns, given four turns per task: the store has one more record per
    task, the world is the one reached by the requests of the tasks, and
    each task sent at least one request and no more than its retries
    allow. *)
Lemma run_tasks_spec cfg market fuel :
  forall sched (tasks : list Task) w (store : list RawFetchRecord.t),
  (sum_list_with turns_left tasks <= fuel)%nat ->
  exists recs attempts,
    run_tasks fuel sched cfg market tasks w store
      = (send_all w (map (request_for cfg market) attempts), store ++ recs) /\
    map RawFetchRecord.page recs ≡ₚ map task_page tasks /\
    Forall (fun r => RawFetchRecord.market r = MarketConfig.name market) recs /\
    (length tasks <= length attempts
       <= sum_list_with (fun t => S (task_retries t)) tasks)%nat /\
    (forall p,
       (tally (fun _ => 1) p tasks <= attempts_for p attempts)%nat /\
       (attempts_for p attempts <= tally (fun t => S (task_retries t)) p tasks)%nat).
Proof.
  assert (Hnil : forall fuel' sched w (store : list RawFetchRecord.t),
    exists recs attempts,
      run_tasks fuel' sched cfg market [] w store
        = (send_all w (map (request_for cfg market) attempts), store ++ recs) /\
      map RawFetchRecord.page recs ≡ₚ map task_page [] /\
      Forall (fun r => RawFetchRecord.market r = MarketConfig.name market) recs /\
      (length (@nil Task) <= length attempts
         <= sum_list_with (fun t => S (task_retries t)) [])%nat /\
      (forall p,
         (tally (fun _ => 1) p [] <= attempts_for p attempts)%nat /\
         (attempts_for p attempts <= tally (fun t => S (task_retries t)) p [])%nat)).
  { intros fuel' sched w store. exists [], []. rewrite app_nil_r.
    split; [destruct fuel'; reflexivity|].
    split; [reflexivity|]. split; [constructor|].
    split; [cbn; lia|]. intros p. cbn. lia. }
  induction fuel as [|fuel IH]; intros sched tasks w store Hf.
  { destruct tasks as [|t tasks]; [apply Hnil|].
    cbn in Hf. unfold turns_left in Hf. lia. }
  destruct (decide (tasks = [])) as [->|Hne]; [apply Hnil|].
  rewrite run_tasks_unfold by exact Hne.
  set (i := Nat.modulo (hd 0%nat sched) (length tasks)).
  assert (i < length tasks)%nat as Hi.
  { apply Nat.mod_upper_bound. destruct tasks; [congruence | discriminate]. }
  destruct (drop i tasks) as [|t after] eqn:Ed.
  { apply (f_equal length) in Ed. rewrite length_drop in Ed. cbn in Ed. lia. }
  assert (tasks = take i tasks ++ t :: after) as Et.
  { rewrite <- Ed. symmetry. apply take_drop. }
  cbn zeta. generalize dependent (take i tasks). intros before Et.
  clear Hi Ed. clearbody i. subst tasks.
  rewrite sum_list_with_app in Hf. cbn [sum_list_with] in Hf.
  unfold turns_left at 2 in Hf.
  unfold task_turn. destruct (task_ts t) as [ts|] eqn:Ets.
  - destruct (send w (request_for cfg market (task_page t))) as [w' reply] eqn:Es.
    assert (forall attempts,
      send_all w (map (request_for cfg market) (task_page t :: attempts))
      = send_all w' (map (request_for cfg market) attempts)) as Hw.
    { intros attempts. cbn [map]. rewrite send_all_cons, Es. reflexivity. }
    assert (forall rec,
      RawFetchRecord.page rec = task_page t ->
      RawFetchRecord.market rec = MarketConfig.name market ->
      exists recs attempts,
        run_tasks fuel (tl sched) cfg market (before ++ after) w'
          (_log_and_store store rec)
        = (send_all w (map (request_for cfg market) attempts), store ++ recs) /\
        map RawFetchRecord.page recs ≡ₚ map task_page (before ++ t :: after) /\
        Forall (fun r => RawFetchRecord.market r = MarketConfig.name market) recs /\
        (length (before ++ t :: after) <= length attempts
           <= sum_list_with (fun t => S (task_retries t)) (before ++ t :: after))%nat /\
        (forall p,
           (tally (fun _ => 1) p (before ++ t :: after)
              <= attempts_for p attempts)%nat /\
           (attempts_for p attempts
              <= tally (fun t => S (task_retries t)) p (before ++ t :: after))%nat))
      as Hdone.
    { intros rec Hp Hm.
      destruct (IH (tl sched) (before ++ after) w' (_log_and_store store rec))
        as (recs & attempts & E & Hperm & Hall & Hlen & Hcount).
      { rewrite sum_list_with_app. lia. }
      exists (rec :: recs), (task_page t :: attempts).
      split; [rewrite E, Hw; unfold _log_and_store; rewrite <- app_assoc; reflexivity|].
      split.
      { cbn [map]. rewrite Hperm, Hp, !map_app. cbn [map].
        apply Permutation_middle. }
      split; [constructor; assumption|].
      split.
      { rewrite length_app, sum_list_with_app in Hlen.
        rewrite length_app, sum_list_with_app. cbn [length sum_list_with]. lia. }
      intros p. specialize (Hcount p).
      rewrite !tally_app in Hcount. rewrite !tally_app, !tally_cons.
      rewrite attempts_for_cons.
      destruct (decide (task_page t = p)); lia. }
    destruct reply as [status text|e].
    { apply Hdone; apply fetch_record_fields. }
    destruct (task_retries t) as [|k] eqn:Er.
    { apply Hdone; apply fetch_record_fields. }
    destruct (IH (tl sched) (before ++ mkTask (task_page t) (Some ts) k :: after)
                w' store) as (recs & attempts & E & Hperm & Hall & Hlen & Hcount).
    { rewrite sum_list_with_app. cbn [sum_list_with]. unfold turns_left at 2.
      cbn [task_ts task_retries]. lia. }
    exists recs, (task_page t :: attempts).
    split; [rewrite E, Hw; reflexivity|].
    split; [rewrite Hperm, !map_app; reflexivity|].
    split; [assumption|].
    split.
    { rewrite length_app, sum_list_with_app in Hlen.
      cbn [length sum_list_with task_retries] in Hlen.
      rewrite length_app, sum_list_with_app. cbn [length sum_list_with].
      rewrite Er. lia. }
    intros p. specialize (Hcount p).
    rewrite !tally_app, !tally_cons in Hcount. cbn [task_page task_retries] in Hcount.
    rewrite !tally_app, !tally_cons, Er, attempts_for_cons.
    destruct (decide (task_page t = p)); lia.
  - destruct (IH (tl sched)
                (before ++ mkTask (task_page t) (Some (now w)) (task_retries t) :: after)
                w store) as (recs & attempts & E & Hperm & Hall & Hlen & Hcount).
    { rewrite sum_list_with_app. cbn [sum_list_with]. unfold turns_left at 2.
      cbn [task_ts task_retries]. lia. }
    exists recs, attempts.
    split; [exact E|].
    split; [rewrite Hperm, !map_app; reflexivity|].
    split; [assumption|].
    split.
    { rewrite length_app, sum_list_with_app in Hlen.
      cbn [length sum_list_with task_retries] in Hlen.
      rewrite length_app, sum_list_with_app. cbn [length sum_list_with]. lia. }
    intros p. specialize (Hcount p).
    rewrite !tally_app, !tally_cons in Hcount. cbn [task_page task_retries] in Hcount.
    rewrite !tally_app, !tally_cons. exact Hcount.
Qed.

Lemma created_tasks (pages : list Z) :
  sum_list_with turns_left (map create_task pages) = (4 * length pages)%nat /\
  sum_list_with (fun t => S (task_retries t)) (map create_task pages)
    = (3 * length pages)%nat /\
  map task_page (map create_task pages) = pages /\
  (forall p,
     tally (fun _ => 1%nat) p (map create_task pages) = attempts_for p pages /\
     tally (fun t => S (task_retries t)) p (map create_task pages)
       = (3 * attempts_for p pages)%nat).
Proof.
  induction pages as [|q pages (IH1 & IH0 & IH2 & IH3)].
  - repeat split.
  - split; [cbn [map sum_list_with length]; rewrite IH1; cbn; lia|].
    split; [cbn [map sum_list_with length]; rewrite IH0; cbn; lia|].
    split; [cbn [map]; rewrite IH2; reflexivity|].
    intros p. destruct (IH3 p) as [IHa IHb].
    cbn [map]. rewrite !tally_cons, attempts_for_cons, IHa, IHb.
    cbn [create_task task_page task_retries].
    destruct (decide (q = p)); split; lia.
Qed.

(** The tasks of the pages 2 to [n], run to completion. *)
Lemma run_created_tasks cfg market sched (n : Z) w (store : list RawFetchRecord.t) :
  exists recs attempts,
    run_tasks (4 * length (map create_task (seqZ 2 (n + 1 - 2)))) sched cfg market
      (map create_task (seqZ 2 (n + 1 - 2))) w store
      = (send_all w (map (request_for cfg market) attempts), store ++ recs) /\
    map RawFetchRecord.page recs ≡ₚ seqZ 2 (n - 1) /\
    Forall (fun r => RawFetchRecord.market r = MarketConfig.name market) recs /\
    (length recs <= length attempts <= 3 * length recs)%nat /\
    Forall (fun p => 2 <= p <= n) attempts /\
    (forall p, 2 <= p <= n -> (1 <= attempts_for p attempts <= 3)%nat).
Proof.
  replace (n + 1 - 2) with (n - 1) by lia.
  destruct (created_tasks (seqZ 2 (n - 1))) as (Hturns & Hsends & Hpages & Htally).
  destruct (run_tasks_spec cfg market
              (4 * length (map create_task (seqZ 2 (n - 1)))) sched
              (map create_task (seqZ 2 (n - 1))) w store)
    as (recs & attempts & E & Hperm & Hall & Hlen & Hcount).
  { rewrite Hturns, length_map. lia. }
  exists recs, attempts. rewrite Hpages in Hperm.
  split; [exact E|]. split; [exact Hperm|]. split; [exact Hall|].
  split.
  { rewrite Hsends, length_map in Hlen.
    rewrite <- (length_map RawFetchRecord.page recs), Hperm. exact Hlen. }
  assert (forall p, (attempts_for p (seqZ 2 (n - 1)) <= attempts_for p attempts)%nat /\
                    (attempts_for p attempts <= 3 * attempts_for p (seqZ 2 (n - 1)))%nat)
    as Hc.
  { intros p. destruct (Hcount p) as [Hlo Hhi], (Htally p) as [Ha Hb].
    rewrite Ha in Hlo. rewrite Hb in Hhi. split; assumption. }
  split.
  - apply Forall_forall. intros p Hp%attempts_for_elem.
    destruct (Hc p) as [_ Hhi].
    assert (1 <= attempts_for p (seqZ 2 (n - 1)))%nat as Hin by lia.
    apply attempts_for_elem, elem_of_seqZ in Hin. lia.
  - intros p Hp. destruct (Hc p) as [Hlo Hhi].
    assert (p ∈ seqZ 2 (n - 1)) as Hin by (apply elem_of_seqZ; lia).
    apply attempts_for_elem in Hin.
    pose proof (attempts_for_NoDup p (seqZ 2 (n - 1)) (NoDup_seqZ _ _)). lia.
Qed.

(** The manual cap: "0 or negative" means there is none. *)
Definition manual_cap (cfg : AppConfig) : option Z :=
  if 0 <? max_pages (collector cfg) then Some (max_pages (collector cfg)) else None.

(** [min(derived_total, manual cap if any, safety cap)] *)
Definition page_limit (cfg : AppConfig) (derived_total : Z) : Z :=
  match manual_cap cfg with
  | Some cap => Z.min derived_total (Z.min cap safety_cap)
  | None => Z.min derived_total safety_cap
  end.

Lemma pages_to_fetch_limit cfg (total : Z) :
  (if 0 <? max_pages (collector cfg)
   then Z.min (Z.min total (max_pages (collector cfg))) safety_cap
   else Z.min total safety_cap) = page_limit cfg total.
Proof.
  unfold page_limit, manual_cap.
  destruct (0 <? max_pages (collector cfg)); [|reflexivity].
  rewrite Z.min_assoc. reflexivity.
Qed.

(** C7: for a market of the cycle, whatever order the event loop runs the
    page tasks in.  When the total is derived from page 1, page 1 is
    fetched first and then the pages 2, ..., [page_limit], each once: one
    record per page is stored, page 1 first and the others in the order
    in which their fetches complete, so the number of pages fetched does
    not exceed min(derived_total, manual_cap, safety_cap), a manual cap
    of 0 or less counting as none.  After page 1 the only requests sent
    are those of these pages, at least one and at most three for each.
    When the minimum is 1 or less nothing is sent or stored after page 1.
    (When the derivation raises, page 1 is the only page fetched and the
    exception escapes.) *)
Theorem collect_market_pages sched cfg market w (store : list RawFetchRecord.t) :
  let first := (fetch_market_page w cfg market 1).2 in
  let w1 := (fetch_market_page w cfg market 1).1 in
  match _derive_total_pages first with
  | Raises e =>
      collect_market sched cfg market w store = (w1, store ++ [first], Some e)
  | Returns derived_total =>
      let limit := page_limit cfg derived_total in
      exists recs attempts,
        collect_market sched cfg market w store
          = (send_all w1 (map (request_for cfg market) attempts),
             store ++ first :: recs, None) /\
        RawFetchRecord.page first = 1 /\
        map RawFetchRecord.page recs ≡ₚ seqZ 2 (limit - 1) /\
        Forall (fun r => RawFetchRecord.market r = MarketConfig.name market)
          (first :: recs) /\
        Z.of_nat (length (first :: recs)) <= limit /\
        (length recs <= length attempts <= 3 * length recs)%nat /\
        Forall (fun p => 2 <= p <= limit) attempts /\
        (forall p, 2 <= p <= limit -> (1 <= attempts_for p attempts <= 3)%nat) /\
        (limit <= 1 -> recs = [] /\ attempts = [])
  end.
Proof.
  cbn zeta. unfold collect_market.
  pose proof (fetch_market_page_fields w cfg market 1) as F. cbn zeta in F.
  destruct (fetch_market_page w cfg market 1) as [w1 first]. cbn [fst snd] in *.
  destruct F as (Fp & Fm & _).
  destruct (_derive_total_pages first) as [total|e] eqn:D; [|reflexivity].
  apply derive_total_pages_ge_1 in D.
  rewrite pages_to_fetch_limit.
  assert (1 <= page_limit cfg total) as Hn.
  { unfold page_limit, manual_cap, safety_cap.
    destruct (Z.ltb_spec 0 (max_pages (collector cfg))); lia. }
  generalize dependent (page_limit cfg total). intros n Hn.
  destruct (Z.leb_spec n 1) as [Hle|Hgt].
  - exists [], []. unfold _log_and_store.
    split; [reflexivity|]. split; [exact Fp|].
    split; [replace (n - 1) with 0 by lia; reflexivity|].
    split; [repeat constructor; exact Fm|].
    split; [cbn; lia|]. split; [cbn; lia|]. split; [constructor|].
    split; [intros p Hp; lia | auto].
  - destruct (run_created_tasks cfg market sched n w1 (_log_and_store store first))
      as (recs & attempts & E & Hperm & Hall & Hlen & Hrange & Hcount).
    rewrite E. exists recs, attempts. unfold _log_and_store.
    rewrite <- app_assoc.
    split; [reflexivity|]. split; [exact Fp|]. split; [exact Hperm|].
    split; [constructor; assumption|].
    split.
    { cbn [length]. rewrite <- (length_map RawFetchRecord.page recs), Hperm, length_seqZ.
      lia. }
    split; [exact Hlen|]. split; [exact Hrange|]. split; [exact Hcount|].
    intros; lia.
Qed.

(** The store is append-only, and the safety cap bounds what a market
    adds to it. *)
Lemma collect_market_bounded sched cfg market w (store : list RawFetchRecord.t) :
  exists recs,
    (collect_market sched cfg market w store).1.2 = store ++ recs /\
    (1 <= length recs <= 200)%nat.
Proof.
  unfold collect_market.
  destruct (fetch_market_page w cfg market 1) as [w1 first].
  destruct (_derive_total_pages first) as [total|e]; cbn [fst snd].
  2:{ exists [first]. split; [reflexivity | cbn; lia]. }
  rewrite pages_to_fetch_limit.
  assert (page_limit cfg total <= 200) as Hn.
  { unfold page_limit, manual_cap, safety_cap.
    destruct (0 <? max_pages (collector cfg)); lia. }
  generalize dependent (page_limit cfg total). intros n Hn.
  destruct (Z.leb_spec n 1) as [Hle|Hgt]; cbn [fst snd].
  - exists [first]. split; [reflexivity | cbn; lia].
  - destruct (run_created_tasks cfg market sched n w1 (_log_and_store store first))
      as (recs & attempts & E & Hperm & _).
    rewrite E. cbn [fst snd]. exists (first :: recs). unfold _log_and_store.
    rewrite <- app_assoc. split; [reflexivity|].
    cbn [length]. rewrite <- (length_map RawFetchRecord.page recs), Hperm, length_seqZ.
    lia.
Qed.

(** *** Total pages derived from page 1 *)

(** The page size: the "size" of the request body, 10 when the field is
    absent or [int] rejects it, and never less than 1. *)
Definition page_size_of (record : RawFetchRecord.t) : Z :=
  match assoc "size" (RawFetchRecord.request_body record) with
  | None => 10
  | Some v =>
      match py_int v with
      | Some n => Z.max n 1
      | None => 10
      end
  end.

(** The response body parses as a JSON object whose "result" is an object
    with a "count" that [int] accepts, as [n]. *)
Definition numeric_count (record : RawFetchRecord.t) (n : Z) : Prop :=
  exists text entries res,
    RawFetchRecord.response_text record = Some text /\
    text <> "" /\
    json_loads text = Some (JDict entries) /\
    dict_get entries "result" = JDict res /\
    py_int (dict_get res "count") = Some n.

Lemma numeric_count_unique record n n' :
  numeric_count record n -> numeric_count record n' -> n = n'.
Proof.
  intros (t & en & res & Ht & _ & Hl & Hr & Hc)
         (t' & en' & res' & Ht' & _ & Hl' & Hr' & Hc').
  congruence.
Qed.

Lemma page_size_of_pos record : 1 <= page_size_of record.
Proof.
  unfold page_size_of.
  destruct (assoc _ _) as [v|]; [destruct (py_int v)|]; lia.
Qed.

Lemma derive_total_pages_cases (record : RawFetchRecord.t) :
  (exists n, numeric_count record n /\
     _derive_total_pages record =
       match PyNum.int_truediv n (page_size_of record) with
       | None => Raises "OverflowError"
       | Some x => Returns (Z.max 1 (PyNum.math_ceil x))
       end) \/
  ((forall n, ~ numeric_count record n) /\ _derive_total_pages record = Returns 1).
Proof.
  unfold _derive_total_pages, page_size_of.
  destruct (RawFetchRecord.response_text record) as [text|] eqn:Ht.
  2:{ right. split; [|reflexivity]. intros n (t & ? & ? & Ht' & _). congruence. }
  destruct (String.eqb_spec text "") as [Et|Et].
  { right. split; [|reflexivity].
    intros n (t & ? & ? & Ht' & Hne & _). congruence. }
  destruct (json_loads text) as [payload|] eqn:Hl.
  2:{ right. split; [|reflexivity].
      intros n (t & ? & ? & Ht' & _ & Hl' & _). congruence. }
  destruct payload as [| | | | | |entries];
    try (right; split; [|reflexivity];
         intros n (t & ? & ? & Ht' & _ & Hl' & _); congruence).
  destruct (dict_get entries "result") as [| | | | | |res] eqn:Hr;
    try (right; split; [|reflexivity];
         intros n (t & ? & ? & Ht' & _ & Hl' & Hr' & _); congruence).
  destruct (py_int (dict_get res "count")) as [n|] eqn:Hc.
  2:{ right. split; [|reflexivity].
      intros n (t & ? & ? & Ht' & _ & Hl' & Hr' & Hc'). congruence. }
  left. exists n. split.
  - exists text, entries, res. auto.
  - destruct (assoc "size" _) as [v|]; [destruct (py_int v)|]; reflexivity.
Qed.

(** C2 (amended): when the body of the page-1 record parses as a JSON
    object whose "result" is an object holding a count that [int] accepts
    and that lies within [-2^53, 2^53], the derived total is
    ceil(count / page_size) with a floor of 1, on exact integers, where
    page_size is the request body's "size" (10 when absent or rejected by
    [int], never less than 1).  In every other case except a count outside
    that range (body absent or empty, body that does not parse, payload or
    "result" that is not an object, count absent or rejected by [int]) the
    derived total is exactly 1. *)
Theorem derive_total_pages_spec (record : RawFetchRecord.t) :
  (forall n, numeric_count record n -> - 2 ^ 53 <= n <= 2 ^ 53 ->
     _derive_total_pages record
       = Returns (Z.max 1 (PyNum.ceil_div n (page_size_of record)))) /\
  ((forall n, ~ numeric_count record n) -> _derive_total_pages record = Returns 1) /\
  (RawFetchRecord.response_text record = None ->
     _derive_total_pages record = Returns 1) /\
  (forall text, RawFetchRecord.response_text record = Some text ->
     (json_loads text = None -> _derive_total_pages record = Returns 1) /\
     (forall payload, json_loads text = Some payload ->
        is_dict payload = false -> _derive_total_pages record = Returns 1) /\
     (forall entries, json_loads text = Some (JDict entries) ->
        (is_dict (dict_get entries "result") = false ->
           _derive_total_pages record = Returns 1) /\
        (forall res, dict_get entries "result" = JDict res ->
           py_int (dict_get res "count") = None ->
           _derive_total_pages record = Returns 1))).
Proof.
  destruct (derive_total_pages_cases record) as [(n & Hn & E)|(Hnone & E)].
  - split.
    { intros n' Hn' Hr. rewrite (numeric_count_unique _ _ _ Hn' Hn).
      rewrite (numeric_count_unique _ _ _ Hn' Hn) in Hr.
      destruct (PyNum.int_truediv_ceil n (page_size_of record) Hr) as (x & Hx & Hc).
      { pose proof (page_size_of_pos record). lia. }
      rewrite E, Hx, Hc. reflexivity. }
    destruct Hn as (t & en & res & Ht & Hne & Hl & Hr & Hc).
    split. { intros Hno. exfalso. apply (Hno n). exists t, en, res. auto. }
    split. { congruence. }
    intros text Htext. assert (text = t) as -> by congruence.
    split. { congruence. }
    split. { intros payload Hp. assert (payload = JDict en) as -> by congruence.
             discriminate. }
    intros entries He. assert (entries = en) as -> by congruence.
    split. { rewrite Hr. discriminate. }
    intros res' Hr'. congruence.
  - split. { intros n Hn. destruct (Hnone n Hn). }
    repeat split; intros; exact E.
Qed.

(** *** Further properties of the collector *)

(** The world in which attempt number [j] (from 0) of a request is made. *)
Definition attempt_world (rq : HttpRequest) (j : nat) (w : World) : World :=
  Nat.iter j (fun w0 => (send w0 rq).1) w.

Lemma with_retry_attempts (n : nat) (w : World) (rq : HttpRequest) :
  exists k, (k <= n)%nat /\
    with_retry n w rq = send (attempt_world rq k w) rq /\
    (forall j, (j < k)%nat ->
       exists e, (send (attempt_world rq j w) rq).2 = Raised e) /\
    (forall e, (with_retry n w rq).2 = Raised e -> k = n).
Proof.
  unfold attempt_world. revert w. induction n as [|n IH]; intros w.
  - exists 0%nat. cbn. destruct (send w rq) as [w' [st t|e]];
      repeat split; auto; intros; lia.
  - cbn [with_retry]. destruct (send w rq) as [w' [st t|e]] eqn:E.
    + exists 0%nat. cbn. rewrite E.
      split; [lia|]. split; [reflexivity|].
      split; [intros; lia | intros e [=]].
    + destruct (IH w') as (k & Hk & H1 & H2 & H3).
      exists (S k). split; [lia|].
      split; [rewrite Nat.iter_succ_r, E; exact H1|].
      split.
      * intros [|j] Hj.
        -- exists e. cbn. rewrite E. reflexivity.
        -- rewrite Nat.iter_succ_r, E. apply H2. lia.
      * intros e' He'. f_equal. apply (H3 e'). exact He'.
Qed.

(** X6: [_request] makes at most three attempts.  An attempt is repeated only
    after one that raised: the reply is that of the first attempt that
    completes, whatever its HTTP status, and an exception is returned only
    after three attempts that all raised. *)
Theorem request_attempts (w : World) (rq : HttpRequest) :
  exists k, (k <= 2)%nat /\
    _request w rq = send (attempt_world rq k w) rq /\
    (forall j, (j < k)%nat ->
       exists e, (send (attempt_world rq j w) rq).2 = Raised e) /\
    (forall e, (_request w rq).2 = Raised e -> k = 2%nat).
Proof. unfold _request. apply with_retry_attempts. Qed.

(** X7: [_derive_total_pages] never returns less than 1, and the only way it
    raises is the OverflowError of the division, on a count of magnitude
    at least 2^1023. *)
Theorem derive_total_pages_outcome (record : RawFetchRecord.t) :
  match _derive_total_pages record with
  | Returns n => 1 <= n
  | Raises e =>
      e = "OverflowError" /\
      exists n, numeric_count record n /\ 2 ^ 1023 <= Z.abs n
  end.
Proof.
  destruct (derive_total_pages_cases record) as [(n & Hn & E)|(_ & E)].
  - rewrite E.
    destruct (PyNum.int_truediv n (page_size_of record)) as [x|] eqn:D; [lia|].
    split; [reflexivity|]. exists n. split; [exact Hn|].
    apply (PyNum.int_truediv_overflow n (page_size_of record)); [|exact D].
    pose proof (page_size_of_pos record). lia.
  - rewrite E. lia.
Qed.

(** X8: Sanitizing is idempotent and only removes: headers already sanitized
    are left as they are, and every sanitized header is one of the
    configured headers, with its value. *)
Theorem sanitize_headers_idempotent (hs : gmap string string) :
  _sanitize_headers (_sanitize_headers hs) = _sanitize_headers hs /\
  _sanitize_headers hs ⊆ hs /\
  ((forall k, k ∈ dom hs -> str_lower k ∉ _SENSITIVE_HEADERS) ->
   _sanitize_headers hs = hs).
Proof.
  split; [|split].
  - apply map_eq. intros k. apply option_eq. intros v.
    rewrite !sanitize_lookup. tauto.
  - unfold _sanitize_headers. apply map_filter_subseteq.
  - intros Hclean. apply map_eq. intros k. apply option_eq. intros v.
    rewrite sanitize_lookup. split; [tauto|]. intros Hk. split; [exact Hk|].
    apply Hclean, elem_of_dom. eauto.
Qed.

(** The request body has the keys of the template, in the same order, and
    the value under a key is the substituted value of the template. *)
Lemma build_body_keys (template : list (string * json)) (fiat : string)
    (side : Side) (endpoint_side : string) (page : Z) :
  map fst (_build_body template fiat side endpoint_side page) = map fst template /\
  (forall k,
     assoc k (_build_body template fiat side endpoint_side page) =
     option_map
       (fun v => _substitute_placeholders v
                   (mkFormatCtx fiat (side_str side) endpoint_side page))
       (assoc k template)).
Proof.
  unfold _build_body. split.
  - induction template as [|[k v] tl IH]; cbn; [reflexivity|]. now rewrite IH.
  - intros k. induction template as [|[k' v] tl IH]; cbn; [reflexivity|].
    destruct (String.eqb k k'); [reflexivity | exact IH].
Qed.

(** X9: Substitution keeps every value that is not a string, a list or a dict
    (numbers, booleans, null), so a numeric "size" in the template is the
    page size of every record fetched with it. *)
Theorem fetched_page_size (w : World) (cfg : AppConfig) (market : MarketConfig.t)
    (page n : Z) :
  assoc "size" (body_template (bybit_p2p_endpoint cfg)) = Some (JInt n) ->
  page_size_of (fetch_market_page w cfg market page).2 = Z.max n 1.
Proof.
  intros Hsize.
  destruct (fetch_market_page_fields w cfg market page) as (_ & _ & _ & Hbody).
  unfold page_size_of. rewrite Hbody. unfold request_for. cbn [req_body].
  destruct (build_body_keys (body_template (bybit_p2p_endpoint cfg))
              (MarketConfig.fiat market) (MarketConfig.side market)
              (MarketConfig.endpoint_side market) page) as [_ Hk].
  rewrite Hk, Hsize. reflexivity.
Qed.

(** X10: The safety cap bounds a cycle whatever the upstream count and the
    configuration: a cycle only appends to the store, at least nothing and
    at most 200 records per configured market. *)
Theorem collect_once_bounded (scheds : list (list nat)) (cfg : AppConfig)
    (w : World) (store : list RawFetchRecord.t) :
  exists recs,
    (collect_once scheds cfg w store).1.2 = store ++ recs /\
    (length recs <= 200 * length (markets cfg))%nat.
Proof.
  unfold collect_once. generalize (markets cfg) as ms.
  intros ms. revert scheds w store.
  induction ms as [|m ms IH]; intros scheds w store; cbn.
  - exists []. rewrite app_nil_r. split; [reflexivity | cbn; lia].
  - destruct (collect_market_bounded (hd [] scheds) cfg m w store)
      as (recs & E & Hl).
    destruct (collect_market (hd [] scheds) cfg m w store) as [[w' store'] [e|]];
      cbn in E; subst store'; cbn.
    + exists recs. split; [reflexivity | lia].
    + destruct (IH (tl scheds) w' (store ++ recs)) as (recs' & E' & Hl').
      exists (recs ++ recs'). rewrite E', app_assoc.
      split; [reflexivity|]. rewrite length_app. lia.
Qed.

End Collector.

(** *** Examples on the sample runtime *)

Definition example_endpoint : BybitP2PEndpoint :=
  mkEndpoint "https://api.example/p2p" POST 20
    {[ "Cookie" := "session=1"; "riskToken" := "t"; "User-Agent" := "bitpeer";
       "X-API-KEY" := "k"; "Accept" := "application/json" ]}
    [("size", JStr "10"); ("page", JStr "{page}"); ("currencyId", JStr "{fiat}")].

Definition example_market : MarketConfig.t :=
  MarketConfig.mk "vnd-buy" "VND" BUY "1".

Definition example_cfg (manual_cap : Z) : AppConfig :=
  mkAppConfig (mkCollectorConfig 30 manual_cap 30) example_endpoint [example_market].

(** A page-1 record with the given response body and request body. *)
Definition page1_record (text : option string) (body : list (string * json))
  : RawFetchRecord.t :=
  RawFetchRecord.mk 0 "vnd-buy" "VND" BUY 1 "https://api.example/p2p" POST ∅
    body (Some 200) text None.

Example sanitize_mixed_case :
  @_sanitize_headers Sample.builtins (headers example_endpoint)
  = {[ "User-Agent" := "bitpeer"; "Accept" := "application/json" ]}.
Proof. vm_compute. reflexivity. Qed.

Example derive_25_by_10 :
  @_derive_total_pages Sample.builtins
    (page1_record (Some (Sample.count_body 25)) [("size", JStr "10")]) = Returns 3.
Proof. vm_compute. reflexivity. Qed.

Example derive_unparseable :
  @_derive_total_pages Sample.builtins
    (page1_record (Some "<html>busy</html>") [("size", JStr "10")]) = Returns 1.
Proof. vm_compute. reflexivity. Qed.

Example derive_result_not_object :
  @_derive_total_pages Sample.builtins
    (page1_record (Some ("{" +:+ Sample.q "result" +:+ ": []}")) []) = Returns 1.
Proof. vm_compute. reflexivity. Qed.

Example derive_count_absent :
  @_derive_total_pages Sample.builtins
    (page1_record (Some ("{" +:+ Sample.q "result" +:+ ": {}}")) []) = Returns 1.
Proof. vm_compute. reflexivity. Qed.

(** [int] truncates a float count toward zero before the division. *)
Example int_of_float_count :
  @py_int Sample.builtins (JFloat 20.5) = Some 20 /\
  @py_int Sample.builtins (JFloat (-0.5)) = Some 0 /\
  @py_int Sample.builtins (JFloat PrimFloat.infinity) = None.
Proof. vm_compute. repeat split. Qed.

(** A count so large that the quotient is no float: the division raises
    and nothing catches it. *)
Example derive_overflow :
  @_derive_total_pages Sample.builtins
    (page1_record (Some (Sample.count_body (10 ^ 400))) []) = Raises "OverflowError".
Proof. vm_compute. reflexivity. Qed.

(** C2, as stated, fails on a large count: the body parses to an object
    whose "result" holds the integer count 90071992547409921; with the
    default page size 10 the exact ceiling is 9007199254740993, but the
    quotient is rounded to the float 2^53 before [math.ceil] sees it. *)
Lemma derive_total_pages_rounds :
  @json_loads Sample.builtins (Sample.count_body 90071992547409921)
    = Some (JDict [("result", JDict [("count", JInt 90071992547409921)])]) /\
  @_derive_total_pages Sample.builtins
    (page1_record (Some (Sample.count_body 90071992547409921)) [])
    = Returns 9007199254740992 /\
  Z.max 1 (PyNum.ceil_div 90071992547409921 10) = 9007199254740993.
Proof. vm_compute. repeat split. Qed.

Lemma derive_total_pages_spec_witness :
  @_derive_total_pages Sample.builtins
    (page1_record (Some (Sample.count_body 1000)) [("size", JStr "7")])
  = Returns 143.
Proof.
  destruct (@derive_total_pages_spec Sample.builtins
              (page1_record (Some (Sample.count_body 1000)) [("size", JStr "7")]))
    as [Hnum _].
  rewrite (Hnum 1000).
  - reflexivity.
  - exists (Sample.count_body 1000), [("result", JDict [("count", JInt 1000)])],
      [("count", JInt 1000)].
    repeat split; try reflexivity. vm_compute. discriminate.
  - split; apply Z.leb_le; reflexivity.
Defined.

(** Three pages for 25 offers at 10 per page, under a manual cap of 5;
    the event loop runs the first pending task every time. *)
Example collect_three_pages :
  map RawFetchRecord.page
    (@collect_market Sample.builtins (Sample.server (Sample.count_body 25))
       [] (example_cfg 5) example_market 0%nat []).1.2
  = [1; 2; 3].
Proof. vm_compute. reflexivity. Qed.

(** The same cycle when the task of page 3 is run before that of page 2:
    its record is stored first. *)
Example collect_completion_order :
  map RawFetchRecord.page
    (@collect_market Sample.builtins (Sample.server (Sample.count_body 25))
       [1; 1]%nat (example_cfg 5) example_market 0%nat []).1.2
  = [1; 3; 2].
Proof. vm_compute. reflexivity. Qed.

(** On a server that is down page 1 is the only page: three attempts, one
    record, and the world is the one after these three requests. *)
Example collect_down :
  (@collect_market Sample.builtins Sample.down
     [] (example_cfg 5) example_market 0%nat []).1.1 = 3%nat /\
  map RawFetchRecord.page
    (@collect_market Sample.builtins Sample.down
       [] (example_cfg 5) example_market 0%nat []).1.2 = [1].
Proof. vm_compute. split; reflexivity. Qed.

(** The manual cap binds: 1000 offers are 100 pages, 5 are fetched, with
    one request each on a server that answers. *)
Example collect_manual_cap :
  map RawFetchRecord.page
    (@collect_market Sample.builtins (Sample.server (Sample.count_body 1000))
       [3; 3; 0; 0; 1; 1]%nat (example_cfg 5) example_market 0%nat []).1.2
  = [1; 5; 2; 4; 3] /\
  (@collect_market Sample.builtins (Sample.server (Sample.count_body 1000))
     [3; 3; 0; 0; 1; 1]%nat (example_cfg 5) example_market 0%nat []).1.1 = 5%nat.
Proof. vm_compute. split; reflexivity. Qed.

(** Without a manual cap the derived total decides, up to the safety cap. *)
Example collect_no_manual_cap :
  length
    (@collect_market Sample.builtins (Sample.server (Sample.count_body 1000))
       [] (example_cfg 0) example_market 0%nat []).1.2
  = 100%nat.
Proof. vm_compute. reflexivity. Qed.

(** A server that is down: three attempts, then one record with the error
    and neither body nor status. *)
Example fetch_down :
  let '(w, rec) := @fetch_market_page Sample.builtins Sample.down 0%nat
                     (example_cfg 5) example_market 1 in
  w = 3%nat /\
  RawFetchRecord.response_text rec = None /\
  RawFetchRecord.http_status rec = None /\
  RawFetchRecord.error rec = Some "ConnectError('All connection attempts failed')".
Proof. vm_compute. repeat split. Qed.

Lemma fetched_page_size_witness :
  @page_size_of Sample.builtins
    (@fetch_market_page Sample.builtins (Sample.server (Sample.count_body 25)) 0%nat
       (mkAppConfig (mkCollectorConfig 30 5 30)
          (mkEndpoint "https://api.example/p2p" POST 20 ∅
             [("size", JInt 25); ("page", JStr "{page}")])
          [example_market])
       example_market 3).2 = 25.
Proof.
  apply (@fetched_page_size Sample.builtins (Sample.server (Sample.count_body 25))
           0%nat
           (mkAppConfig (mkCollectorConfig 30 5 30)
              (mkEndpoint "https://api.example/p2p" POST 20 ∅
                 [("size", JInt 25); ("page", JStr "{page}")])
              [example_market])
           example_market 3 25).
  reflexivity.
Defined.

End Collector.

(** ** [bitpeer.parser.bybit_p2p] *)

Module Parser.

(** Sequencing of calls that may raise. *)
Definition bind {A B : Type} (x : outcome A) (k : A -> outcome B) : outcome B :=
  match x with
  | Returns a => k a
  | Raises e => Raises e
  end.

Notation "'let*' x ':=' c1 'in' c2" := (bind c1 (fun x => c2))
  (at level 10, x name, c1 at level 100, c2 at level 200).

Definition _PRICE_KEYS : list string :=
  ["price"; "unitPrice"; "priceValue"; "rate"; "unit_price"].
Definition _MIN_KEYS : list string :=
  ["minAmount"; "minFiat"; "minOrderAmount"; "min"; "min_amount"].
Definition _MAX_KEYS : list string :=
  ["maxAmount"; "maxFiat"; "maxOrderAmount"; "max"; "max_amount"].
Definition _PAYMENT_KEYS : list string :=
  ["payment"; "payments"; "paymentMethods"; "payment_methods"; "payMethods"].
Definition _MERCHANT_KEYS : list string :=
  ["isMerchant"; "merchant"; "is_merchant"].
Definition _RATING_KEYS : list string :=
  ["rating"; "userRating"; "user_rating"; "score"].
Definition _ADVERTISER_KEYS : list string :=
  ["userId"; "uid"; "advertiserId"; "advertiser_id"; "nickName"; "nickname"].

(** [value.replace(",", "")] *)
Fixpoint remove_commas (s : string) : string :=
  match s with
  | EmptyString => EmptyString
  | String c tl =>
      if Ascii.eqb c "," then remove_commas tl else String c (remove_commas tl)
  end.

Fixpoint _first_present (d : list (string * json)) (keys : list string) : json :=
  match keys with
  | [] => JNull
  | k :: rest =>
      match assoc k d with
      | Some v => v
      | None => _first_present d rest
      end
  end.

Definition _maybe_dict (value : json) : json :=
  match value with JDict _ => value | _ => JNull end.

Definition _maybe_list (value : json) : json :=
  match value with JList _ => value | _ => JNull end.

(** The entries of a value known to be a dict. *)
Definition entries_of (value : json) : list (string * json) :=
  match value with JDict entries => entries | _ => [] end.

(** [[x for x in obj if isinstance(x, dict)]] *)
Definition dicts_of (items : list json) : list (list (string * json)) :=
  omap (fun x => match x with JDict entries => Some entries | _ => None end) items.

(** *** Locating the list of offers *)

Definition looks_like_offer (d : list (string * json)) : bool :=
  if existsb (has_key d) _PRICE_KEYS then true
  else if has_key d "adv" || has_key d "advertiser" then true
  else false.

(** [sum(1 for d in dicts[:min(5, len(dicts))] if looks_like_offer(d))] *)
Definition qualifying (dicts : list (list (string * json))) : Z :=
  Z.of_nat (length (filter (fun d => looks_like_offer d = true) (take 5 dicts))).

(** The test [find] applies to a non-empty list: [Some dicts] when the
    list is returned as the list of offers. *)
Definition accept (items : list json) : option (list (list (string * json))) :=
  if forallb is_dict (take 3 items)
  then
    let dicts := dicts_of items in
    if negb (bool_decide (dicts = [])) && (2 <=? qualifying dicts)
    then Some dicts
    else None
  else None.

(** [for x in xs: res = f(x); if res is not None: return res] *)
Fixpoint first_found {A B : Type} (f : A -> option B) (xs : list A) : option B :=
  match xs with
  | [] => None
  | x :: rest =>
      match f x with
      | Some res => Some res
      | None => first_found f rest
      end
  end.

(** [find(obj, depth)]; [depth] counts down to 0. *)
Fixpoint find (depth : nat) (obj : json) : option (list (list (string * json))) :=
  match depth with
  | O => None
  | S d =>
      match obj with
      | JList (x :: rest) =>
          match accept (x :: rest) with
          | Some dicts => Some dicts
          | None => first_found (find d) (x :: rest)
          end
      | JDict entries => first_found (find d) (map snd entries)
      | _ => None
      end
  end.

(** The well-known shapes: a list under "items", "data", "list" or "rows"
    of a dict under "result". *)
Definition well_known (payload : json) : option (list (list (string * json))) :=
  match payload with
  | JDict entries =>
      match dict_get entries "result" with
      | JDict result =>
          first_found
            (fun key =>
               match dict_get result key with
               | JList (x :: rest) =>
                   if forallb is_dict (take 3 (x :: rest))
                   then Some (dicts_of (x :: rest))
                   else None
               | _ => None
               end)
            ["items"; "data"; "list"; "rows"]
      | _ => None
      end
  | _ => None
  end.

Definition _extract_offer_items (payload : json) : list (list (string * json)) :=
  match well_known payload with
  | Some dicts => dicts
  | None =>
      match find 6 payload with
      | Some found => match found with [] => [] | _ => found end
      | None => []
      end
  end.

Section Parser.
Context `{Builtins}.

(** [_to_float]: [float(n)] on an integer too large for a float raises
    OverflowError, which only the string branch would catch. *)
Definition _to_float (value : json) : outcome (option float) :=
  match value with
  | JNull => Returns None
  | JBool b => Returns (Some (if b then 1%float else 0%float))
  | JInt n =>
      match PyNum.float_of_int n with
      | Some f => Returns (Some f)
      | None => Raises "OverflowError"
      end
  | JFloat f => Returns (Some f)
  | JStr s =>
      match float_of_str (str_strip (remove_commas s)) with
      | Some f => Returns (Some f)
      | None => Returns None
      end
  | JList _ | JDict _ => Returns None
  end.

(** [p.get("name") or p.get("paymentMethodName") or ... or p.get("key")] *)
Definition payment_name (p : list (string * json)) : json :=
  py_or (dict_get p "name")
    (py_or (dict_get p "paymentMethodName")
       (py_or (dict_get p "identifier")
          (py_or (dict_get p "id") (dict_get p "key")))).

(** The loop over [raw] when it is a list. *)
Fixpoint methods_of_list (raw : list json) : list string :=
  match raw with
  | [] => []
  | JStr s :: rest => s :: methods_of_list rest
  | JDict p :: rest =>
      let name := payment_name p in
      if truthy name then str_of name :: methods_of_list rest
      else methods_of_list rest
  | _ :: rest => methods_of_list rest
  end.

(** [for m in methods: if m not in out: out.append(m)] *)
Fixpoint dedupe (out methods : list string) : list string :=
  match methods with
  | [] => out
  | m :: rest =>
      if bool_decide (m ∈ out) then dedupe out rest
      else dedupe (out ++ [m]) rest
  end.

Definition _extract_payment_methods (item : list (string * json)) : list string :=
  let raw := _first_present item _PAYMENT_KEYS in
  let methods :=
    match raw with
    | JList ps => methods_of_list ps
    | JDict entries => map fst entries
    | _ => []
    end in
  dedupe [] methods.

(** [_maybe_dict(item.get(a)) or _maybe_dict(item.get(b)) or {}] *)
Definition sub_object (item : list (string * json)) (a b : string)
  : list (string * json) :=
  entries_of
    (py_or (py_or (_maybe_dict (dict_get item a)) (_maybe_dict (dict_get item b)))
       (JDict [])).

(** [_first_present(sub, keys) or _first_present(item, keys)] *)
Definition lookup_field (sub item : list (string * json)) (keys : list string) : json :=
  py_or (_first_present sub keys) (_first_present item keys).

(** The body of [for item in items]: [Returns None] is the [continue]. *)
Definition parse_item (record : RawFetchRecord.t) (item : list (string * json))
  : outcome (option Offer) :=
  let adv := sub_object item "adv" "advertisement" in
  let advertiser := sub_object item "advertiser" "user" in
  let* price := _to_float (lookup_field adv item _PRICE_KEYS) in
  let* min_fiat := _to_float (lookup_field adv item _MIN_KEYS) in
  let* max_fiat := _to_float (lookup_field adv item _MAX_KEYS) in
  match price, min_fiat, max_fiat with
  | Some price, Some min_fiat, Some max_fiat =>
      let is_merchant_raw := lookup_field advertiser item _MERCHANT_KEYS in
      let is_merchant :=
        match is_merchant_raw with
        | JNull => None
        | _ => Some (truthy is_merchant_raw)
        end in
      let rating_raw := lookup_field advertiser item _RATING_KEYS in
      let* rating := _to_float rating_raw in
      let advertiser_key_raw := lookup_field advertiser item _ADVERTISER_KEYS in
      let advertiser_key :=
        match advertiser_key_raw with
        | JNull => None
        | _ => Some (str_of advertiser_key_raw)
        end in
      Returns (Some (mkOffer (RawFetchRecord.ts_utc record) "USDT"
                       (RawFetchRecord.fiat record) (RawFetchRecord.side record)
                       price min_fiat max_fiat
                       (_extract_payment_methods item)
                       is_merchant rating advertiser_key
                       (Some (RawFetchRecord.market record))
                       (Some (RawFetchRecord.page record))))
  | _, _, _ => Returns None
  end.

Fixpoint parse_items (record : RawFetchRecord.t)
    (items : list (list (string * json))) : outcome (list Offer) :=
  match items with
  | [] => Returns []
  | item :: rest =>
      let* parsed := parse_item record item in
      let* offers := parse_items record rest in
      Returns (match parsed with Some o => o :: offers | None => offers end)
  end.

Definition parse_raw_fetch (record : RawFetchRecord.t) : outcome (list Offer) :=
  match RawFetchRecord.response_text record with
  | None => Returns []
  | Some text =>
      if String.eqb text "" then Returns []
      else
        match json_loads text with
        | None => Returns []
        | Some payload => parse_items record (_extract_offer_items payload)
        end
  end.

(** *** The list that is accepted *)

(** [within n v obj]: the value [v] sits [n] levels below [obj]. *)
Inductive within : nat -> json -> json -> Prop :=
| within_here obj : within 0 obj obj
| within_list n v x items :
    x ∈ items -> within n v x -> within (S n) v (JList items)
| within_dict n v k x entries :
    (k, x) ∈ entries -> within n v x -> within (S n) v (JDict entries).

Lemma first_found_Some {A B : Type} (f : A -> option B) (xs : list A) (r : B) :
  first_found f xs = Some r -> exists x, x ∈ xs /\ f x = Some r.
Proof.
  induction xs as [|x xs IH]; cbn; [discriminate|].
  destruct (f x) as [y|] eqn:E.
  - intros [= <-]. exists x. split; [left | assumption].
  - intros (x' & Hin & Hx')%IH. exists x'. split; [right|]; assumption.
Qed.

Lemma first_found_None {A B : Type} (f : A -> option B) (xs : list A) :
  first_found f xs = None <-> forall x, x ∈ xs -> f x = None.
Proof.
  induction xs as [|x xs IH]; cbn.
  - split; [intros _ x Hx; inversion Hx | reflexivity].
  - destruct (f x) as [y|] eqn:E.
    + split; [discriminate|]. intros Hall.
      rewrite (Hall x) in E; [discriminate | left].
    + rewrite IH. split.
      * intros Hall x' [->|Hx']%elem_of_cons; auto.
      * intros Hall x' Hx'. apply Hall. now right.
Qed.

Lemma accept_spec (items : list json) (dicts : list (list (string * json))) :
  accept items = Some dicts <->
    forallb is_dict (take 3 items) = true /\
    dicts = dicts_of items /\ dicts <> [] /\ 2 <= qualifying dicts.
Proof.
  unfold accept. destruct (forallb is_dict (take 3 items)).
  2:{ split; [discriminate | intros [? _]; discriminate]. }
  case_bool_decide as Hd; cbn.
  - split; [discriminate|]. intros (_ & -> & Hne & _). contradiction.
  - destruct (Z.leb_spec 2 (qualifying (dicts_of items))) as [Hq|Hq].
    + split; [intros [= <-]; auto | intros (_ & -> & _); reflexivity].
    + split; [discriminate|]. intros (_ & -> & _ & Hq'). lia.
Qed.

Lemma accept_rejects (items : list json) :
  qualifying (dicts_of items) <= 1 -> accept items = None.
Proof.
  intros Hq. destruct (accept items) as [dicts|] eqn:E; [|reflexivity].
  apply accept_spec in E as (_ & -> & _ & Hq'). lia.
Qed.

(** Whatever [find] returns was accepted, at most [depth - 1] levels down. *)
Lemma find_sound (depth : nat) (obj : json) dicts :
  find depth obj = Some dicts ->
  exists n items, (n < depth)%nat /\ within n (JList items) obj /\
                  accept items = Some dicts.
Proof.
  revert obj. induction depth as [|d IH]; intros obj; cbn [find]; [discriminate|].
  destruct obj as [| | | | |[|x rest]|entries]; try discriminate.
  - destruct (accept (x :: rest)) as [ds|] eqn:A.
    + intros [= <-]. exists 0%nat, (x :: rest).
      split; [lia|]. split; [constructor | assumption].
    + intros (y & Hy & Hf)%first_found_Some.
      destruct (IH y Hf) as (n & items & Hn & Hw & Ha).
      exists (S n), items. split; [lia|]. split; [|assumption].
      econstructor; eassumption.
  - intros (y & Hy & Hf)%first_found_Some.
    apply list_elem_of_fmap in Hy as ([k y'] & -> & Hy).
    destruct (IH _ Hf) as (n & items & Hn & Hw & Ha).
    exists (S n), items. split; [lia|]. split; [|assumption].
    econstructor; eassumption.
Qed.

(** C3, as stated, fails on the well-known shapes: the list under
    result.items is returned although none of its elements looks like an
    offer. *)
Lemma well_known_shape_unchecked :
  _extract_offer_items
    (JDict [("result", JDict [("items", JList [JDict [("foo", JInt 1)]])])])
    = [[("foo", JInt 1)]] /\
  qualifying [[("foo", JInt 1)]] = 0.
Proof. vm_compute. split; reflexivity. Qed.

(** C3 (amended): for a payload that matches none of the well-known
    shapes, the list the extractor returns, when it returns one, is made
    of the dict elements of a list found less than 6 levels down in the
    payload, at least 2 of whose first 5 dict elements look like an offer;
    a list with 1 or fewer qualifying elements is not accepted, and the
    search goes on into its elements and, when nothing is found there,
    past it to its siblings. *)
Theorem extract_offer_items_accepts (payload : json) :
  (well_known payload = None ->
   _extract_offer_items payload <> [] ->
   exists n items,
     (n < 6)%nat /\ within n (JList items) payload /\
     _extract_offer_items payload = dicts_of items /\
     forallb is_dict (take 3 items) = true /\
     2 <= qualifying (dicts_of items)) /\
  (forall d items,
     qualifying (dicts_of items) <= 1 ->
     accept items = None /\
     find (S d) (JList items) = first_found (find d) items) /\
  (forall d items rest,
     qualifying (dicts_of items) <= 1 ->
     first_found (find d) items = None ->
     first_found (find (S d)) (JList items :: rest)
       = first_found (find (S d)) rest).
Proof.
  split; [|split].
  - intros Hwk Hne. unfold _extract_offer_items in *. rewrite Hwk in *.
    destruct (find 6 payload) as [found|] eqn:F; [|contradiction].
    assert (match found with [] => [] | _ => found end = found) as E
      by (destruct found; reflexivity).
    rewrite E in *.
    destruct (find_sound _ _ _ F) as (n & items & Hn & Hw & Ha).
    apply accept_spec in Ha as (H3 & -> & _ & Hq).
    exists n, items. auto.
  - intros d items Hq. split; [apply accept_rejects, Hq|].
    destruct items as [|x rest]; [reflexivity|].
    cbn [find]. rewrite (accept_rejects _ Hq). reflexivity.
  - intros d items rest Hq Hin.
    cbn [first_found]. destruct items as [|x items]; [reflexivity|].
    cbn [find]. rewrite (accept_rejects _ Hq), Hin. reflexivity.
Qed.

Lemma extract_offer_items_accepts_witness :
  exists n items,
    (n < 6)%nat /\
    within n (JList items)
      (JDict [("data", JList [JList [JDict [("id", JInt 1)]];
                              JList [JDict [("price", JStr "1")];
                                     JDict [("adv", JDict [])]]])]) /\
    _extract_offer_items
      (JDict [("data", JList [JList [JDict [("id", JInt 1)]];
                              JList [JDict [("price", JStr "1")];
                                     JDict [("adv", JDict [])]]])])
      = dicts_of items /\
    forallb is_dict (take 3 items) = true /\
    2 <= qualifying (dicts_of items).
Proof.
  apply (extract_offer_items_accepts
    (JDict [("data", JList [JList [JDict [("id", JInt 1)]];
                            JList [JDict [("price", JStr "1")];
                                   JDict [("adv", JDict [])]]])])).
  - reflexivity.
  - vm_compute. discriminate.
Defined.

(** *** Alias lookup *)

(** The value under the first key of the alias list that the dict holds. *)
Definition first_alias_value (d : list (string * json)) (keys : list string)
  : option json :=
  head (omap (fun k => assoc k d) keys).

Lemma first_present_alias (d : list (string * json)) (keys : list string) :
  _first_present d keys =
    match first_alias_value d keys with Some v => v | None => JNull end.
Proof.
  unfold first_alias_value. induction keys as [|k keys IH]; cbn; [reflexivity|].
  destruct (assoc k d); [reflexivity | exact IH].
Qed.


Lemma first_alias_value_None d keys :
  first_alias_value d keys = None <-> Forall (fun k => has_key d k = false) keys.
Proof.
  unfold first_alias_value, has_key. induction keys as [|k keys IH]; cbn.
  - split; [constructor | reflexivity].
  - destruct (assoc k d) as [x|] eqn:A; cbn.
    + split; [discriminate|]. intros Hf. apply Forall_inv in Hf.
      rewrite A in Hf. discriminate.
    + rewrite IH. split.
      * intros Hf. constructor; [rewrite A; reflexivity | assumption].
      * intros Hf. exact (Forall_inv_tail Hf).
Qed.

(** *** Materializing an offer *)

(** The offer built from the coerced fields of an item. *)
Definition offer_of (record : RawFetchRecord.t) (item : list (string * json))
    (price min_fiat max_fiat : float) (rating : option float) : Offer :=
  let advertiser := sub_object item "advertiser" "user" in
  mkOffer (RawFetchRecord.ts_utc record) "USDT"
    (RawFetchRecord.fiat record) (RawFetchRecord.side record)
    price min_fiat max_fiat
    (_extract_payment_methods item)
    match lookup_field advertiser item _MERCHANT_KEYS with
    | JNull => None
    | _ => Some (truthy (lookup_field advertiser item _MERCHANT_KEYS))
    end
    rating
    match lookup_field advertiser item _ADVERTISER_KEYS with
    | JNull => None
    | _ => Some (str_of (lookup_field advertiser item _ADVERTISER_KEYS))
    end
    (Some (RawFetchRecord.market record))
    (Some (RawFetchRecord.page record)).

(** The four coercions of an item, in the order the loop makes them. *)
Definition required_price (item : list (string * json)) : outcome (option float) :=
  _to_float (lookup_field (sub_object item "adv" "advertisement") item _PRICE_KEYS).
Definition required_min (item : list (string * json)) : outcome (option float) :=
  _to_float (lookup_field (sub_object item "adv" "advertisement") item _MIN_KEYS).
Definition required_max (item : list (string * json)) : outcome (option float) :=
  _to_float (lookup_field (sub_object item "adv" "advertisement") item _MAX_KEYS).
Definition optional_rating (item : list (string * json)) : outcome (option float) :=
  _to_float (lookup_field (sub_object item "advertiser" "user") item _RATING_KEYS).

Lemma parse_item_unfold record item p mn mx :
  required_price item = Returns p ->
  required_min item = Returns mn ->
  required_max item = Returns mx ->
  parse_item record item =
    match p, mn, mx with
    | Some p, Some mn, Some mx =>
        match optional_rating item with
        | Returns r => Returns (Some (offer_of record item p mn mx r))
        | Raises e => Raises e
        end
    | _, _, _ => Returns None
    end.
Proof.
  unfold required_price, required_min, required_max, optional_rating, parse_item.
  intros -> -> ->. cbn [bind].
  destruct p as [p|], mn as [mn|], mx as [mx|]; reflexivity.
Qed.

Lemma lookup_field_missing (sub item : list (string * json)) (keys : list string) :
  Forall (fun k => has_key sub k = false) keys ->
  Forall (fun k => has_key item k = false) keys ->
  lookup_field sub item keys = JNull.
Proof.
  intros Hs%first_alias_value_None Hi%first_alias_value_None.
  unfold lookup_field, py_or. rewrite !first_present_alias, Hs, Hi. reflexivity.
Qed.

Lemma parse_item_Some_inv record item o :
  parse_item record item = Returns (Some o) ->
  exists p mn mx r,
    required_price item = Returns (Some p) /\
    required_min item = Returns (Some mn) /\
    required_max item = Returns (Some mx) /\
    optional_rating item = Returns r /\
    o = offer_of record item p mn mx r.
Proof.
  intros E.
  destruct (required_price item) as [p|] eqn:Ep.
  2:{ unfold parse_item, required_price in *. rewrite Ep in E. discriminate. }
  destruct (required_min item) as [mn|] eqn:Emn.
  2:{ unfold parse_item, required_price, required_min in *.
      rewrite Ep, Emn in E. discriminate. }
  destruct (required_max item) as [mx|] eqn:Emx.
  2:{ unfold parse_item, required_price, required_min, required_max in *.
      rewrite Ep, Emn, Emx in E. discriminate. }
  rewrite (parse_item_unfold record item p mn mx Ep Emn Emx) in E.
  destruct p as [p|], mn as [mn|], mx as [mx|]; try discriminate.
  destruct (optional_rating item) as [r|] eqn:Er; [|discriminate].
  injection E as <-. exists p, mn, mx, r. auto.
Qed.










(** C10: when the advertiser sub-object carries a merchant flag that is
    explicitly false and the item has no merchant alias at its top level,
    the materialized offer's merchant flag is unknown, exactly as when the
    advertiser sub-object carries no merchant flag at all. *)
Theorem merchant_false_is_unknown record (item : list (string * json)) (o : Offer) :
  parse_item record item = Returns (Some o) ->
  Forall (fun k => has_key item k = false) _MERCHANT_KEYS ->
  (_first_present (sub_object item "advertiser" "user") _MERCHANT_KEYS = JBool false ->
   is_merchant o = None) /\
  (Forall (fun k => has_key (sub_object item "advertiser" "user") k = false)
     _MERCHANT_KEYS ->
   is_merchant o = None).
Proof.
  intros (p & mn & mx & r & _ & _ & _ & _ & ->)%parse_item_Some_inv Hi.
  split.
  - intros Hf. cbn. unfold lookup_field, py_or. rewrite Hf. cbn [truthy].
    apply first_alias_value_None in Hi.
    rewrite first_present_alias, Hi. reflexivity.
  - intros Hs. cbn. rewrite (lookup_field_missing _ _ _ Hs Hi). reflexivity.
Qed.

(** *** Further properties of the extractor *)

Lemma first_found_is_Some {A B : Type} (f : A -> option B) (xs : list A) (x : A) :
  x ∈ xs -> is_Some (f x) -> is_Some (first_found f xs).
Proof.
  intros Hin Hx. destruct (first_found f xs) as [r|] eqn:E; [eauto|].
  rewrite first_found_None in E. rewrite (E x Hin) in Hx.
  destruct Hx as [? [=]].
Qed.

Lemma accept_nil : accept [] = None.
Proof. reflexivity. Qed.

(** The search is complete: a list that passes the test less than [depth]
    levels down makes [find] return some list. *)
Lemma find_complete (depth n : nat) (obj : json) items dicts :
  within n (JList items) obj -> (n < depth)%nat ->
  accept items = Some dicts -> is_Some (find depth obj).
Proof.
  intros Hw. revert depth.
  remember (JList items) as v eqn:Ev.
  induction Hw as [obj|n v x its Hx Hw IH|n v k x entries Hx Hw IH];
    intros depth Hn Ha; subst.
  - destruct depth as [|d]; [lia|]. destruct items as [|x rest].
    + rewrite accept_nil in Ha. discriminate.
    + cbn [find]. rewrite Ha. eauto.
  - destruct depth as [|d]; [lia|].
    destruct its as [|y rest]; [inversion Hx|]. cbn [find].
    destruct (accept (y :: rest)); [eauto|].
    apply (first_found_is_Some _ _ x Hx). apply IH; [reflexivity | lia | exact Ha].
  - destruct depth as [|d]; [lia|]. cbn [find].
    apply (first_found_is_Some _ _ x).
    + apply list_elem_of_fmap. exists (k, x). split; [reflexivity | exact Hx].
    + apply IH; [reflexivity | lia | exact Ha].
Qed.

Lemma find_None_iff (depth : nat) (obj : json) :
  find depth obj = None <->
  forall n items, (n < depth)%nat -> within n (JList items) obj ->
                  accept items = None.
Proof.
  split.
  - intros Hf n items Hn Hw.
    destruct (accept items) as [dicts|] eqn:Ha; [|reflexivity].
    destruct (find_complete depth n obj items dicts Hw Hn Ha) as [r Hr].
    congruence.
  - intros Hall. destruct (find depth obj) as [dicts|] eqn:Hf; [|reflexivity].
    destruct (find_sound _ _ _ Hf) as (n & items & Hn & Hw & Ha).
    rewrite (Hall n items Hn Hw) in Ha. discriminate.
Qed.

Lemma dicts_of_nonempty (x : json) (rest : list json) :
  forallb is_dict (take 3 (x :: rest)) = true -> dicts_of (x :: rest) <> [].
Proof.
  cbn. destruct x; cbn; discriminate.
Qed.

Lemma well_known_nonempty (payload : json) dicts :
  well_known payload = Some dicts -> dicts <> [].
Proof.
  unfold well_known. destruct payload as [| | | | | |entries]; try discriminate.
  destruct (dict_get entries "result") as [| | | | | |result]; try discriminate.
  intros (key & _ & Hk)%first_found_Some.
  destruct (dict_get result key) as [| | | | |[|x rest]|]; try discriminate.
  destruct (forallb is_dict (take 3 (x :: rest))) eqn:F; [|discriminate].
  injection Hk as <-. apply dicts_of_nonempty, F.
Qed.

(** X11: The extractor yields no item exactly when the payload matches none of
    the well-known shapes and no list less than 6 levels down passes the
    test of the search. *)
Theorem extract_offer_items_empty (payload : json) :
  _extract_offer_items payload = [] <->
  well_known payload = None /\
  (forall n items, (n < 6)%nat -> within n (JList items) payload ->
                   accept items = None).
Proof.
  rewrite <- find_None_iff. unfold _extract_offer_items.
  destruct (well_known payload) as [dicts|] eqn:W.
  - split; [|intros [[=] _]].
    intros ->. destruct (well_known_nonempty _ _ W eq_refl).
  - destruct (find 6 payload) as [found|] eqn:F.
    + split; [|intros [_ [=]]].
      destruct (find_sound _ _ _ F) as (n & items & _ & _ & Ha).
      apply accept_spec in Ha as (_ & _ & Hne & _).
      destruct found; [contradiction | discriminate].
    + split; auto.
Qed.

(** The names [_extract_payment_methods] collects, before it removes the
    duplicates. *)
Definition payment_names (item : list (string * json)) : list string :=
  match _first_present item _PAYMENT_KEYS with
  | JList ps => methods_of_list ps
  | JDict entries => map fst entries
  | _ => []
  end.

Lemma dedupe_spec (out methods : list string) :
  NoDup out ->
  exists k,
    dedupe out methods = out ++ k /\
    k `sublist_of` methods /\
    NoDup (out ++ k) /\
    (forall x, x ∈ out ++ k <-> x ∈ out \/ x ∈ methods).
Proof.
  revert out. induction methods as [|m rest IH]; intros out Hnd; cbn.
  - exists []. rewrite app_nil_r. split; [reflexivity|].
    split; [constructor|]. split; [assumption|].
    intros x. rewrite elem_of_nil. tauto.
  - case_bool_decide as Hin.
    + destruct (IH out Hnd) as (k & E & Hs & Hn & Hm).
      exists k. split; [exact E|]. split; [constructor; exact Hs|].
      split; [exact Hn|]. intros x. rewrite Hm, elem_of_cons.
      split; [tauto|]. intros [?|[->|?]]; auto.
    + assert (NoDup (out ++ [m])) as Hnd'.
      { apply NoDup_app. split; [assumption|]. split.
        - intros x Hx ->%list_elem_of_singleton. contradiction.
        - apply NoDup_singleton. }
      destruct (IH (out ++ [m]) Hnd') as (k & E & Hs & Hn & Hm).
      exists (m :: k). rewrite E, <- app_assoc in *. cbn [app] in *.
      split; [reflexivity|]. split; [constructor; exact Hs|].
      split; [exact Hn|]. intros x.
      rewrite Hm, elem_of_app, !elem_of_cons, elem_of_nil. tauto.
Qed.

Lemma dedupe_NoDup (out methods : list string) :
  NoDup (out ++ methods) -> dedupe out methods = out ++ methods.
Proof.
  revert out. induction methods as [|m rest IH]; intros out Hnd; cbn.
  - rewrite app_nil_r. reflexivity.
  - apply NoDup_app in Hnd as (Ho & Hdisj & Hm).
    case_bool_decide as Hin.
    + destruct (Hdisj m Hin). left.
    + rewrite IH; [rewrite <- app_assoc; reflexivity|].
      rewrite <- app_assoc. cbn [app]. apply NoDup_app. auto.
Qed.

(** The names of a list without their repetitions, each where it first
    appears: a name is kept, and removed from what follows it. *)
Fixpoint first_occurrences (names : list string) : list string :=
  match names with
  | [] => []
  | m :: rest => m :: filter (fun x => x <> m) (first_occurrences rest)
  end.

Lemma dedupe_first_occurrences (out methods : list string) :
  dedupe out methods
  = out ++ filter (fun x => x ∉ out) (first_occurrences methods).
Proof.
  revert out. induction methods as [|m rest IH]; intros out;
    cbn [dedupe first_occurrences].
  - rewrite filter_nil, app_nil_r. reflexivity.
  - case_bool_decide as Hin.
    + rewrite IH. f_equal. rewrite filter_cons_False by tauto.
      rewrite list_filter_filter. apply list_filter_iff.
      intros x. split; [|tauto]. intros Hx. split; [exact Hx | congruence].
    + rewrite IH, <- app_assoc. cbn [app]. f_equal.
      rewrite filter_cons_True by exact Hin. f_equal.
      rewrite list_filter_filter. apply list_filter_iff.
      intros x. rewrite elem_of_app, list_elem_of_singleton. tauto.
Qed.

Lemma first_occurrences_dedupe (names : list string) :
  dedupe [] names = first_occurrences names.
Proof.
  rewrite dedupe_first_occurrences. cbn [app].
  induction (first_occurrences names) as [|x l IH]; [reflexivity|].
  rewrite filter_cons_True by apply not_elem_of_nil. rewrite IH. reflexivity.
Qed.

Lemma dedupe_app (out l1 l2 : list string) :
  dedupe out (l1 ++ l2) = dedupe (dedupe out l1) l2.
Proof.
  revert out. induction l1 as [|m l1 IH]; intros out; cbn; [reflexivity|].
  case_bool_decide; apply IH.
Qed.

(** X12: The payment methods of an item have no duplicates, are exactly the
    names collected from its payment field, and keep the order of first
    appearance: the list is that of the collected names with every
    repetition of a name removed, so a name that appears for the first
    time comes right after the methods of the names before it; names
    already distinct are returned unchanged. *)
Theorem extract_payment_methods_dedup (item : list (string * json)) :
  NoDup (_extract_payment_methods item) /\
  (forall m, m ∈ _extract_payment_methods item <-> m ∈ payment_names item) /\
  _extract_payment_methods item `sublist_of` payment_names item /\
  (NoDup (payment_names item) ->
   _extract_payment_methods item = payment_names item) /\
  _extract_payment_methods item = first_occurrences (payment_names item) /\
  (forall l1 m l2,
     payment_names item = l1 ++ m :: l2 -> m ∉ l1 ->
     exists k, _extract_payment_methods item = first_occurrences l1 ++ m :: k).
Proof.
  change (_extract_payment_methods item) with (dedupe [] (payment_names item)).
  destruct (dedupe_spec [] (payment_names item) (NoDup_nil_2))
    as (k & E & Hs & Hn & Hm).
  split; [rewrite E; exact Hn|]. split.
  { intros m. rewrite E, Hm, elem_of_nil. tauto. }
  split; [rewrite E; exact Hs|].
  split.
  { intros Hnd. apply (dedupe_NoDup [] (payment_names item)), Hnd. }
  split; [apply first_occurrences_dedupe|].
  intros l1 m l2 -> Hnew.
  rewrite dedupe_app. cbn [dedupe].
  destruct (dedupe_spec [] l1 NoDup_nil_2) as (k1 & E1 & _ & Hn1 & Hm1).
  cbn [app] in *.
  case_bool_decide as Hin.
  { rewrite E1 in Hin. apply Hm1 in Hin as [Hin|Hin]; [inversion Hin | contradiction]. }
  rewrite <- first_occurrences_dedupe.
  destruct (dedupe_spec (dedupe [] l1 ++ [m]) l2) as (k2 & E2 & _).
  { rewrite E1. apply NoDup_app. split; [exact Hn1|].
    split; [|apply NoDup_singleton].
    intros x Hx ->%list_elem_of_singleton.
    apply Hm1 in Hx as [Hx|Hx]; [inversion Hx | exact (Hnew Hx)]. }
  exists k2. rewrite E2, <- app_assoc. reflexivity.
Qed.

Lemma remove_commas_app (s1 s2 : string) :
  remove_commas (s1 +:+ s2) = remove_commas s1 +:+ remove_commas s2.
Proof.
  induction s1 as [|c s1 IH]; [reflexivity|].
  change (String c s1 +:+ s2) with (String c (s1 +:+ s2)).
  cbn [remove_commas]. rewrite IH.
  destruct (Ascii.eqb c ","); reflexivity.
Qed.

(** X13: A comma is dropped wherever it stands in the string, not only between
    groups of three digits: "24,5" is read as "245". *)
Theorem to_float_ignores_commas (s1 s2 : string) :
  _to_float (JStr (s1 +:+ "," +:+ s2)) = _to_float (JStr (s1 +:+ s2)).
Proof.
  unfold _to_float. rewrite !remove_commas_app.
  change (remove_commas ("," +:+ s2)) with (remove_commas s2).
  reflexivity.
Qed.

Lemma to_float_raises (value : json) (e : string) :
  _to_float value = Raises e ->
  e = "OverflowError" /\
  exists n, value = JInt n /\ PyNum.float_of_int n = None.
Proof.
  destruct value as [|b|n|f|s|items|entries]; cbn; try discriminate.
  - destruct (PyNum.float_of_int n) eqn:F; [discriminate|].
    intros [= <-]. eauto.
  - destruct (float_of_str _); discriminate.
Qed.

(** X14: The loop body raises only through [float(n)]: the exception is an
    OverflowError, and the price, the minimum, the maximum or the rating
    of the item is an integer that is too large for a float. *)
Theorem parse_item_raises record (item : list (string * json)) (e : string) :
  parse_item record item = Raises e ->
  e = "OverflowError" /\
  exists n, PyNum.float_of_int n = None /\
    (lookup_field (sub_object item "adv" "advertisement") item _PRICE_KEYS = JInt n \/
     lookup_field (sub_object item "adv" "advertisement") item _MIN_KEYS = JInt n \/
     lookup_field (sub_object item "adv" "advertisement") item _MAX_KEYS = JInt n \/
     lookup_field (sub_object item "advertiser" "user") item _RATING_KEYS = JInt n).
Proof.
  intros E.
  destruct (required_price item) as [p|e1] eqn:Ep.
  2:{ unfold parse_item, required_price in *. rewrite Ep in E. injection E as <-.
      destruct (to_float_raises _ _ Ep) as (-> & n & Hn & Hf). eauto 6. }
  destruct (required_min item) as [mn|e1] eqn:Emn.
  2:{ unfold parse_item, required_price, required_min in *.
      rewrite Ep, Emn in E. injection E as <-.
      destruct (to_float_raises _ _ Emn) as (-> & n & Hn & Hf). eauto 7. }
  destruct (required_max item) as [mx|e1] eqn:Emx.
  2:{ unfold parse_item, required_price, required_min, required_max in *.
      rewrite Ep, Emn, Emx in E. injection E as <-.
      destruct (to_float_raises _ _ Emx) as (-> & n & Hn & Hf). eauto 8. }
  rewrite (parse_item_unfold record item p mn mx Ep Emn Emx) in E.
  destruct p as [p|], mn as [mn|], mx as [mx|]; try discriminate.
  destruct (optional_rating item) as [r|e1] eqn:Er; [discriminate|].
  injection E as <-. unfold optional_rating in Er.
  destruct (to_float_raises _ _ Er) as (-> & n & Hn & Hf). eauto 9.
Qed.

(** X15: What a record's items come to: when no item raises, the offers are
    the materialized items, in the order of the items; otherwise the
    exception is that of the first item that raises, and no offer of the
    record is returned, not even those of the items before it. *)
Theorem parse_items_outcome record (items : list (list (string * json))) :
  match parse_items record items with
  | Returns offers =>
      exists results,
        Forall2 (fun item r => parse_item record item = Returns r) items results /\
        offers = omap id results
  | Raises e =>
      exists before item after,
        items = before ++ item :: after /\
        Forall (fun b => exists r, parse_item record b = Returns r) before /\
        parse_item record item = Raises e
  end.
Proof.
  induction items as [|item rest IH]; cbn.
  - exists []. split; [constructor | reflexivity].
  - destruct (parse_item record item) as [r|e] eqn:E; cbn.
    2:{ exists [], item, rest. split; [reflexivity|]. split; [constructor | exact E]. }
    destruct (parse_items record rest) as [offers|e]; cbn.
    + destruct IH as (results & HF & ->).
      exists (r :: results). split; [constructor; assumption|].
      destruct r; reflexivity.
    + destruct IH as (before & it & after & -> & HF & Hr).
      exists (item :: before), it, after. split; [reflexivity|].
      split; [constructor; eauto | exact Hr].
Qed.

Lemma parse_items_stamped record (items : list (list (string * json))) offers :
  parse_items record items = Returns offers ->
  Forall (fun o =>
            ts_utc o = RawFetchRecord.ts_utc record /\
            asset o = "USDT" /\
            fiat o = RawFetchRecord.fiat record /\
            side o = RawFetchRecord.side record /\
            market o = Some (RawFetchRecord.market record) /\
            page o = Some (RawFetchRecord.page record)) offers /\
  (length offers <= length items)%nat.
Proof.
  revert offers. induction items as [|item rest IH]; cbn; intros offers E.
  - injection E as <-. split; [constructor | cbn; lia].
  - destruct (parse_item record item) as [r|e] eqn:Ei; [|discriminate]. cbn in E.
    destruct (parse_items record rest) as [os|e]; [|discriminate]. cbn in E.
    injection E as <-. destruct (IH os eq_refl) as [HF Hl].
    destruct r as [o|]; [|split; [exact HF | lia]].
    apply parse_item_Some_inv in Ei as (p & mn & mx & rt & _ & _ & _ & _ & ->).
    split; [|cbn; lia]. constructor; [|exact HF]. cbn. auto 7.
Qed.

(** X16: Every offer of a record carries the record's timestamp, fiat, side,
    market and page (and the asset "USDT"): these come from the request,
    never from the payload; and a record yields no more offers than the
    extractor located items. *)
Theorem parse_raw_fetch_stamped (record : RawFetchRecord.t) (offers : list Offer) :
  parse_raw_fetch record = Returns offers ->
  Forall (fun o =>
            ts_utc o = RawFetchRecord.ts_utc record /\
            asset o = "USDT" /\
            fiat o = RawFetchRecord.fiat record /\
            side o = RawFetchRecord.side record /\
            market o = Some (RawFetchRecord.market record) /\
            page o = Some (RawFetchRecord.page record)) offers /\
  (forall text payload,
     RawFetchRecord.response_text record = Some text ->
     json_loads text = Some payload ->
     (length offers <= length (_extract_offer_items payload))%nat).
Proof.
  unfold parse_raw_fetch. intros E.
  destruct (RawFetchRecord.response_text record) as [text|].
  2:{ injection E as <-. split; [constructor | intros ? ? [=]]. }
  destruct (String.eqb text "").
  { injection E as <-. split; [constructor | intros; cbn; lia]. }
  destruct (json_loads text) as [payload|] eqn:L.
  2:{ injection E as <-. split; [constructor | intros; cbn; lia]. }
  destruct (parse_items_stamped _ _ _ E) as [HF Hl].
  split; [exact HF|]. intros t p [= <-] Hp.
  rewrite L in Hp. injection Hp as <-. exact Hl.
Qed.

End Parser.

(** *** Examples on the sample runtime *)

Definition example_record (text : option string) : RawFetchRecord.t :=
  RawFetchRecord.mk 1700000000 "vnd-buy" "VND" BUY 1 "https://api.example/p2p"
    POST ∅ [("size", JStr "10")] (Some 200) text None.

Example to_float_thousands :
  @_to_float Sample.builtins (JStr " 24,500 ") = Returns (Some 24500%float).
Proof. vm_compute. reflexivity. Qed.

Example to_float_not_a_number :
  @_to_float Sample.builtins (JStr "n/a") = Returns None.
Proof. vm_compute. reflexivity. Qed.

(** An integer too large for a float: the coercion raises. *)
Example to_float_overflow :
  @_to_float Sample.builtins (JInt (10 ^ 400)) = Raises "OverflowError".
Proof. vm_compute. reflexivity. Qed.

Example parse_two_items :
  @parse_raw_fetch Sample.builtins (example_record (Some Sample.offers_body))
  = Returns
      [mkOffer 1700000000 "USDT" "VND" BUY 24500 100000 2000000
         ["Bank"; "Momo"] None None (Some "alice") (Some "vnd-buy") (Some 1)].
Proof. vm_compute. reflexivity. Qed.

Example parse_no_body :
  @parse_raw_fetch Sample.builtins (example_record None) = Returns [].
Proof. reflexivity. Qed.




Lemma merchant_false_is_unknown_witness :
  exists o,
    @parse_item Sample.builtins (example_record None)
      [("price", JStr "24500"); ("minAmount", JStr "100"); ("maxAmount", JStr "2000");
       ("advertiser", JDict [("isMerchant", JBool false); ("nickName", JStr "bob")])]
      = Returns (Some o) /\
    is_merchant o = None /\ advertiser_key o = Some "bob".
Proof.
  destruct (@merchant_false_is_unknown Sample.builtins (example_record None)
    [("price", JStr "24500"); ("minAmount", JStr "100"); ("maxAmount", JStr "2000");
     ("advertiser", JDict [("isMerchant", JBool false); ("nickName", JStr "bob")])]
    (@offer_of Sample.builtins (example_record None)
       [("price", JStr "24500"); ("minAmount", JStr "100"); ("maxAmount", JStr "2000");
        ("advertiser", JDict [("isMerchant", JBool false); ("nickName", JStr "bob")])]
       24500 100 2000 None)) as [Hfalse _].
  - vm_compute. reflexivity.
  - repeat constructor.
  - eexists. split; [vm_compute; reflexivity|].
    split; [apply Hfalse; reflexivity | reflexivity].
Defined.

(** At the top level of the item a flag that is false stays false. *)
Example merchant_false_at_top_level :
  option_map is_merchant
    match @parse_item Sample.builtins (example_record None)
            [("price", JStr "24500"); ("minAmount", JStr "100");
             ("maxAmount", JStr "2000"); ("isMerchant", JBool false)] with
    | Returns o => o
    | Raises _ => None
    end = Some (Some false).
Proof. vm_compute. reflexivity. Qed.

Lemma parse_item_raises_witness :
  "OverflowError" = "OverflowError" /\
  exists n, PyNum.float_of_int n = None /\
    (lookup_field
       (sub_object [("price", JStr "24500"); ("minAmount", JInt (10 ^ 400));
                    ("maxAmount", JStr "2000")] "adv" "advertisement")
       [("price", JStr "24500"); ("minAmount", JInt (10 ^ 400));
        ("maxAmount", JStr "2000")] _PRICE_KEYS = JInt n \/
     lookup_field
       (sub_object [("price", JStr "24500"); ("minAmount", JInt (10 ^ 400));
                    ("maxAmount", JStr "2000")] "adv" "advertisement")
       [("price", JStr "24500"); ("minAmount", JInt (10 ^ 400));
        ("maxAmount", JStr "2000")] _MIN_KEYS = JInt n \/
     lookup_field
       (sub_object [("price", JStr "24500"); ("minAmount", JInt (10 ^ 400));
                    ("maxAmount", JStr "2000")] "adv" "advertisement")
       [("price", JStr "24500"); ("minAmount", JInt (10 ^ 400));
        ("maxAmount", JStr "2000")] _MAX_KEYS = JInt n \/
     lookup_field
       (sub_object [("price", JStr "24500"); ("minAmount", JInt (10 ^ 400));
                    ("maxAmount", JStr "2000")] "advertiser" "user")
       [("price", JStr "24500"); ("minAmount", JInt (10 ^ 400));
        ("maxAmount", JStr "2000")] _RATING_KEYS = JInt n).
Proof.
  apply (@parse_item_raises Sample.builtins (example_record None)
           [("price", JStr "24500"); ("minAmount", JInt (10 ^ 400));
            ("maxAmount", JStr "2000")] "OverflowError").
  vm_compute. reflexivity.
Defined.

Lemma parse_raw_fetch_stamped_witness :
  Forall (fun o =>
            ts_utc o = 1700000000 /\ asset o = "USDT" /\ fiat o = "VND" /\
            side o = BUY /\ market o = Some "vnd-buy" /\ page o = Some 1)
    [mkOffer 1700000000 "USDT" "VND" BUY 24500 100000 2000000
       ["Bank"; "Momo"] None None (Some "alice") (Some "vnd-buy") (Some 1)].
Proof.
  apply (@parse_raw_fetch_stamped Sample.builtins
           (example_record (Some Sample.offers_body))
           [mkOffer 1700000000 "USDT" "VND" BUY 24500 100000 2000000
              ["Bank"; "Momo"] None None (Some "alice") (Some "vnd-buy") (Some 1)]).
  vm_compute. reflexivity.
Defined.

End Parser.

(** ** From a fetch to its offers

    The collector and the extractor composed: what [parse_raw_fetch] makes
    of the record [fetch_market_page] produces. *)

Module Pipeline.

Section Pipeline.
Context `{Builtins} `{Network}.

(** X17: A fetch attempt that failed on all its tries yields no offer, and
    extracting from its record does not raise. *)
Theorem failed_fetch_no_offers (w : World) (cfg : AppConfig)
    (market_cfg : MarketConfig.t) (page_no : Z) (e : string) :
  (Collector._request w (Collector.request_for cfg market_cfg page_no)).2
    = Raised e ->
  Parser.parse_raw_fetch (Collector.fetch_market_page w cfg market_cfg page_no).2
    = Returns [].
Proof.
  unfold Collector.fetch_market_page, Collector.request_for.
  destruct (Collector._request _ _) as [w' [st text|repr]]; cbn; [discriminate|].
  reflexivity.
Qed.

(** X18: Every offer extracted from a fetched page carries the fiat and the
    side of the configured market, its name, the page requested and the
    time at which the fetch started, whatever the payload says. *)
Theorem fetched_offers_stamped (w : World) (cfg : AppConfig)
    (market_cfg : MarketConfig.t) (page_no : Z) (offers : list Offer) :
  Parser.parse_raw_fetch (Collector.fetch_market_page w cfg market_cfg page_no).2
    = Returns offers ->
  Forall (fun o =>
            fiat o = MarketConfig.fiat market_cfg /\
            side o = MarketConfig.side market_cfg /\
            market o = Some (MarketConfig.name market_cfg) /\
            page o = Some page_no /\
            ts_utc o = now w) offers.
Proof.
  unfold Parser.parse_raw_fetch. intros E.
  assert (Hrec :
    let record := (Collector.fetch_market_page w cfg market_cfg page_no).2 in
    RawFetchRecord.ts_utc record = now w /\
    RawFetchRecord.fiat record = MarketConfig.fiat market_cfg /\
    RawFetchRecord.side record = MarketConfig.side market_cfg /\
    RawFetchRecord.market record = MarketConfig.name market_cfg /\
    RawFetchRecord.page record = page_no).
  { unfold Collector.fetch_market_page.
    destruct (Collector._request _ _) as [w' [st text|repr]]; cbn; auto. }
  cbn zeta in Hrec. destruct Hrec as (Hts & Hf & Hs & Hm & Hp).
  destruct (RawFetchRecord.response_text _) as [text|].
  2:{ injection E as <-. constructor. }
  destruct (String.eqb text "").
  { injection E as <-. constructor. }
  destruct (json_loads text) as [payload|].
  2:{ injection E as <-. constructor. }
  destruct (Parser.parse_items_stamped _ _ _ E) as [HF _].
  eapply Forall_impl; [exact HF|]. cbn.
  intros o (-> & _ & -> & -> & -> & ->).
  rewrite Hts, Hf, Hs, Hm, Hp. auto.
Qed.

End Pipeline.

(** *** Examples on the sample runtime *)

Lemma failed_fetch_no_offers_witness :
  @Parser.parse_raw_fetch Sample.builtins
    (@Collector.fetch_market_page Sample.builtins Sample.down 0%nat
       (Collector.example_cfg 5) Collector.example_market 1).2 = Returns [].
Proof.
  apply (@failed_fetch_no_offers Sample.builtins Sample.down 0%nat
           (Collector.example_cfg 5) Collector.example_market 1
           "ConnectError('All connection attempts failed')").
  vm_compute. reflexivity.
Defined.

Lemma fetched_offers_stamped_witness :
  Forall (fun o =>
            fiat o = "VND" /\ side o = BUY /\ market o = Some "vnd-buy" /\
            page o = Some 1 /\ ts_utc o = 0)
    [mkOffer 0 "USDT" "VND" BUY 24500 100000 2000000
       ["Bank"; "Momo"] None None (Some "alice") (Some "vnd-buy") (Some 1)].
Proof.
  apply (@fetched_offers_stamped Sample.builtins (Sample.server Sample.offers_body)
           0%nat (Collector.example_cfg 5) Collector.example_market 1).
  vm_compute. reflexivity.
Defined.

End Pipeline.
